(** * ItemDB decoder (itemdb.py): shallow embedding and verified properties

    The Python module reads a versioned binary container of game item
    records.  The embedding keeps the structure of the source:

    - the byte source ([buffer.read]) is the list of bytes still unread,
      threaded through a small state-and-exception monad [M];
    - Python [int] is [Z], [bytes] is [list byte], [str] is the list of its
      code points ([ord] of every character);
    - a decoded item is the attribute dictionary of the template instance,
      a [gmap string value];
    - every exception the functions can raise is a constructor of [exn]. *)

From Stdlib Require Import ZArith Lia List.
From Stdlib.Strings Require Import Byte.
From stdpp Require Import gmap strings list fin_maps.

Local Open Scope Z_scope.

(** ** Python values *)

(** A Python [str]: the sequence of its code points. *)
Definition pystr := list Z.

(** [chr] accepts exactly [range(0x110000)]; every character of a [str]
    lies in that range. *)
Definition is_code_point (c : Z) : bool := (0 <=? c) && (c <? 0x110000).

Definition is_str (s : pystr) : bool := forallb is_code_point s.

(** What an attribute of a decoded item can hold. *)
Inductive value :=
| PyNone
| PyInt (n : Z)
| PyStr (s : pystr).

(** Exceptions raised by the decoder. *)
Inductive exn :=
| UnicodeDecodeError
    (* bytes.decode("utf-8") on malformed input *)
| ChrValueError (n : Z)
    (* ValueError: chr() arg not in range(0x110000) *)
| ZeroDivisionError
    (* (i + offset) % len(key) with an empty key *)
| UnknownFieldType (k tname : string)
    (* ValueError("Unknown field type in template: k = tname") *)
| OffsetMismatch (i : Z) (id : value) (version : Z)
    (* ValueError("Offset mismatch, ... (i != item.id, vversion)") *)
| AttributeError (name : string).
    (* item.id on a template without an id field *)

Inductive result (A : Type) :=
| Ok (a : A)
| Raise (e : exn).
Arguments Ok {A} a.
Arguments Raise {A} e.

(** ** The byte source *)

Definition byte_val (b : byte) : Z := Z.of_N (Byte.to_N b).

(** [buffer.read(size)] of a binary stream whose unread content is
    [buffer]: at most [size] bytes, fewer when the stream ends first, all
    of them when [size] is negative.  Returns the bytes read and the
    content left.  This is [io.BytesIO.read] for every [size] below
    [2 ^ 63], and the [read] of a file opened in binary mode for
    [-1 <= size < 2 ^ 63]; a file refuses the sizes below [-1] with
    ValueError and every stream the sizes from [2 ^ 63] on with
    OverflowError, which [readable_size] below rules out where a statement
    depends on it. *)
Definition read (buffer : list byte) (size : Z) : list byte * list byte :=
  if size <? 0 then (buffer, [])
  else (firstn (Z.to_nat size) buffer, skipn (Z.to_nat size) buffer).

(** [int.from_bytes(bs, "little")]. *)
Fixpoint from_bytes_little (bs : list byte) : Z :=
  match bs with
  | [] => 0
  | b :: rest => byte_val b + 256 * from_bytes_little rest
  end.

(** [bytes.decode("utf-8")] in strict mode: the well-formed byte sequences
    of the Unicode standard (no overlong forms, no surrogates, nothing
    above U+10FFFF); [None] stands for UnicodeDecodeError. *)
Definition is_cont (c : Z) : bool := (0x80 <=? c) && (c <? 0xC0).

Fixpoint utf8_decode (bs : list byte) : option pystr :=
  match bs with
  | [] => Some []
  | b0 :: r0 =>
    let c0 := byte_val b0 in
    if c0 <? 0x80 then cons c0 <$> utf8_decode r0
    else if c0 <? 0xC2 then None
    else if c0 <? 0xE0 then
      match r0 with
      | b1 :: r1 =>
        let c1 := byte_val b1 in
        if is_cont c1
        then cons ((c0 - 0xC0) * 64 + (c1 - 0x80)) <$> utf8_decode r1
        else None
      | _ => None
      end
    else if c0 <? 0xF0 then
      match r0 with
      | b1 :: b2 :: r2 =>
        let c1 := byte_val b1 in
        let c2 := byte_val b2 in
        if is_cont c1 && is_cont c2
           && negb ((c0 =? 0xE0) && (c1 <? 0xA0))
           && negb ((c0 =? 0xED) && (0xA0 <=? c1))
        then cons ((c0 - 0xE0) * 4096 + (c1 - 0x80) * 64 + (c2 - 0x80))
               <$> utf8_decode r2
        else None
      | _ => None
      end
    else if c0 <? 0xF5 then
      match r0 with
      | b1 :: b2 :: b3 :: r3 =>
        let c1 := byte_val b1 in
        let c2 := byte_val b2 in
        let c3 := byte_val b3 in
        if is_cont c1 && is_cont c2 && is_cont c3
           && negb ((c0 =? 0xF0) && (c1 <? 0x90))
           && negb ((c0 =? 0xF4) && (0x90 <=? c1))
        then cons ((c0 - 0xF0) * 262144 + (c1 - 0x80) * 4096
                   + (c2 - 0x80) * 64 + (c3 - 0x80))
               <$> utf8_decode r3
        else None
      | _ => None
      end
    else None
  end.

(** ** The decoding monad: the unread bytes as state, exceptions as
    results *)

Definition M (A : Type) : Type := list byte -> result (A * list byte).

Definition ret {A} (a : A) : M A := fun buffer => Ok (a, buffer).

Definition raise {A} (e : exn) : M A := fun _ => Raise e.

Definition bind {A B} (m : M A) (k : A -> M B) : M B :=
  fun buffer =>
    match m buffer with
    | Ok (a, buffer') => k a buffer'
    | Raise e => Raise e
    end.

Notation "'let*' x ':=' m 'in' k" := (bind m (fun x => k))
  (at level 10, x name, m at level 100, k at level 200).

(** A pure computation that may raise, run without touching the source. *)
Definition lift {A} (r : result A) : M A :=
  fun buffer =>
    match r with
    | Ok a => Ok (a, buffer)
    | Raise e => Raise e
    end.

Definition read_bytes (size : Z) : M (list byte) :=
  fun buffer => Ok (read buffer size).

(** ** Template fields *)

Module _Field.
Record t := mk {
  size : Z;
  version : Z;
  xor_key : option pystr
}.
End _Field.

(** The annotation of a template field: [int], [str], [None], any other
    object with a [__name__] (a class such as [float]), or an object
    without one (a union such as [int | None], a string annotation). *)
Inductive annotation :=
| ann_int
| ann_str
| ann_None
| ann_other (name : string)
| ann_unnamed.

(** A template: the items of [template.__annotations__] in order, each
    with the [_Field] the class gives that attribute as its default.
    [__annotations__] is a dict, so the names of a template are distinct
    and [getattr(item, k)] is the [_Field] of [k] when the loop reaches
    it. *)
Definition template := list (string * annotation * _Field.t).

Definition names (tpl : template) : list string := map (fun e => fst (fst e)) tpl.

(** ** The functions of itemdb.py *)

Definition _parse_int (size : Z) : M Z :=
  let* bs := read_bytes size in
  ret (from_bytes_little bs).

Definition _parse_str : M pystr :=
  let* len := _parse_int 2 in
  let* bs := read_bytes len in
  match utf8_decode bs with
  | Some s => ret s
  | None => raise UnicodeDecodeError
  end.

(** The loop of [_xor_str] from position [i] on; [str] is what is left of
    the text. *)
Fixpoint _xor_str_from (i : Z) (str key : pystr) (offset : Z) : result pystr :=
  match str with
  | [] => Ok []
  | c :: rest =>
    if Z.of_nat (length key) =? 0 then Raise ZeroDivisionError
    else
      let k := nth (Z.to_nat ((i + offset) mod Z.of_nat (length key))) key 0 in
      let x := Z.lxor c k in
      if is_code_point x then
        match _xor_str_from (i + 1) rest key offset with
        | Ok r => Ok (x :: r)
        | Raise e => Raise e
        end
      else Raise (ChrValueError x)
  end.

Definition _xor_str (str key : pystr) (offset : Z) : result pystr :=
  _xor_str_from 0 str key offset.

(** The body of the inner loop of [parse]: the value [setattr] stores for
    the field [k : t = f] of item number [i]. *)
Definition parse_field (version i : Z) (k : string) (t : annotation)
    (f : _Field.t) : M value :=
  if version <? _Field.version f then ret PyNone
  else match t with
  | ann_int =>
    let* n := _parse_int (_Field.size f) in
    ret (PyInt n)
  | ann_str =>
    let* s := _parse_str in
    match _Field.xor_key f with
    | Some key =>
      if 3 <=? version
      then let* s' := lift (_xor_str s key i) in ret (PyStr s')
      else ret (PyStr s)
    | None => ret (PyStr s)
    end
  | ann_None =>
    (if 0 <? _Field.size f
     then let* _ := _parse_int (_Field.size f) in ret PyNone
     else let* _ := _parse_str in ret PyNone)
  | ann_other tname => raise (UnknownFieldType k tname)
  | ann_unnamed =>
    (* the f-string evaluates t.__name__ before ValueError is built *)
    raise (AttributeError "__name__")
  end.

(** The inner loop: every attribute of the fresh [template()] instance is
    overwritten in template order, so the attribute dictionary is built
    from the empty one. *)
Fixpoint parse_fields (version i : Z) (tpl : template)
    (item : gmap string value) : M (gmap string value) :=
  match tpl with
  | [] => ret item
  | (k, t, f) :: rest =>
    let* v := parse_field version i k t f in
    parse_fields version i rest (<[k := v]> item)
  end.

(** [if i != item.id: raise ValueError(...)]. *)
Definition check_id (version i : Z) (item : gmap string value) : M unit :=
  match item !! "id"%string with
  | None => raise (AttributeError "id")
  | Some (PyInt n) =>
    if n =? i then ret tt else raise (OffsetMismatch i (PyInt n) version)
  | Some v => raise (OffsetMismatch i v version)
  end.

(** One turn of the outer loop. *)
Definition parse_item (version i : Z) (tpl : template) : M (gmap string value) :=
  let* item := parse_fields version i tpl ∅ in
  let* _ := check_id version i item in
  ret item.

(** The outer loop, [n] turns left, [i] the current index, [items] the
    list built so far. *)
Fixpoint parse_items (version : Z) (tpl : template) (n : nat) (i : Z)
    (items : list (gmap string value)) : M (list (gmap string value)) :=
  match n with
  | O => ret items
  | S n' =>
    let* item := parse_item version i tpl in
    parse_items version tpl n' (i + 1) (items ++ [item])
  end.

Definition parse (tpl : template) : M (Z * Z * list (gmap string value)) :=
  let* version := _parse_int 2 in
  let* item_count := _parse_int 4 in
  let* items := parse_items version tpl (Z.to_nat item_count) 0 [] in
  ret (version, item_count, items).

(** ** Templates *)

(** A [str] literal of ASCII characters. *)
Definition str_of (s : string) : pystr :=
  map (fun a => Z.of_N (Ascii.N_of_ascii a)) (String.list_ascii_of_string s).

(** [_Field(...)] with the keyword arguments that are given; the others
    keep the defaults [size=-1], [version=1], [xor_key=None]. *)
Definition sized (size : Z) : _Field.t := _Field.mk size 1 None.
Definition dynamic : _Field.t := _Field.mk (-1) 1 None.
Definition since (version : Z) (f : _Field.t) : _Field.t :=
  _Field.mk (_Field.size f) version (_Field.xor_key f).
Definition keyed (key : string) : _Field.t := _Field.mk (-1) 1 (Some (str_of key)).

(** The default template, class [Item]. *)
Definition Item : template :=
  [ ("id", ann_int, sized 4);
    ("properties", ann_int, sized 2);
    ("type", ann_int, sized 1);
    ("material", ann_int, sized 1);
    ("name", ann_str, keyed "PBG892FXX982ABC*");
    ("file_name", ann_str, dynamic);
    ("file_hash", ann_int, sized 4);
    ("visual_type", ann_int, sized 1);
    ("cook_time", ann_int, sized 4);
    ("tex_x", ann_int, sized 1);
    ("tex_y", ann_int, sized 1);
    ("storage_type", ann_int, sized 1);
    ("layer", ann_int, sized 1);
    ("collision_type", ann_int, sized 1);
    ("hardness", ann_int, sized 1);
    ("regen_time", ann_int, sized 4);
    ("clothing_type", ann_int, sized 1);
    ("rarity", ann_int, sized 2);
    ("max_hold", ann_int, sized 1);
    ("alt_file_path", ann_str, dynamic);
    ("alt_file_hash", ann_int, sized 4);
    ("anim_ms", ann_int, sized 4);
    ("pet_name", ann_str, since 4 dynamic);
    ("pet_prefix", ann_str, since 4 dynamic);
    ("pet_suffix", ann_str, since 4 dynamic);
    ("pet_ability", ann_str, since 5 dynamic);
    ("seed_base", ann_int, sized 1);
    ("seed_over", ann_int, sized 1);
    ("tree_base", ann_int, sized 1);
    ("tree_over", ann_int, sized 1);
    ("bg_col", ann_int, sized 4);
    ("fg_col", ann_int, sized 4);
    ("seed1", ann_int, sized 2);
    ("seed2", ann_int, sized 2);
    ("bloom_time", ann_int, sized 4);
    ("anim_type", ann_int, since 7 (sized 4));
    ("anim_string", ann_str, since 7 dynamic);
    ("anim_tex", ann_str, since 8 dynamic);
    ("anim_string2", ann_str, since 8 dynamic);
    ("dlayer1", ann_int, since 8 (sized 4));
    ("dlayer2", ann_int, since 8 (sized 4));
    ("properties2", ann_int, since 9 (sized 2));
    ("_unknown1", ann_None, since 9 (sized 62));
    ("tile_range", ann_int, since 10 (sized 4));
    ("pile_range", ann_int, since 10 (sized 4));
    ("custom_punch", ann_str, since 11 dynamic);
    ("_unknown2", ann_None, since 12 (sized 13));
    ("clock_div", ann_int, since 13 (sized 4));
    ("parent_id", ann_int, since 14 (sized 4));
    ("_unknown3", ann_None, since 15 (sized 25));
    ("alt_sit_path", ann_str, since 15 dynamic);
    ("_unknown4", ann_str, since 16 dynamic) ]%string.

(** The two-field template [id: int = _Field(size=4)],
    [flag: int = _Field(size=1)]. *)
Definition reduced_schema : template :=
  [ ("id", ann_int, sized 4); ("flag", ann_int, sized 1) ]%string.

(** ** Vocabulary of the statements *)

(** What a field holds after decoding from a source with no bytes left:
    integers read as 0 and strings as the empty string. *)
Definition blank (version : Z) (t : annotation) (f : _Field.t) : value :=
  if version <? _Field.version f then PyNone
  else match t with
  | ann_int => PyInt 0
  | ann_str => PyStr []
  | _ => PyNone
  end.

Fixpoint blank_item (version : Z) (tpl : template)
    (item : gmap string value) : gmap string value :=
  match tpl with
  | [] => item
  | (k, t, f) :: rest => blank_item version rest (<[k := blank version t f]> item)
  end.

(** The field is gated out, or its annotation is one [parse] decodes. *)
Definition implemented (version : Z) (e : string * annotation * _Field.t) : bool :=
  match e with
  | (_, ann_other _, f) | (_, ann_unnamed, f) => version <? _Field.version f
  | _ => true
  end.

(** The sizes every binary stream reads without complaint: [-1] (all that
    is left) and the natural numbers below [2 ^ 63]. *)
Definition max_read : Z := 2 ^ 63.

Definition readable_size (size : Z) : bool := (-1 <=? size) && (size <? max_read).

(** Every read the field asks for has such a size: the field is gated out,
    an integer of readable size, an opaque field read as an integer of
    readable size, or a string (whose length prefix is below 65536). *)
Definition sizes_readable (version : Z) (e : string * annotation * _Field.t) : bool :=
  match e with
  | (_, t, f) =>
    (version <? _Field.version f)
    || match t with
       | ann_int => readable_size (_Field.size f)
       | ann_None => (_Field.size f <=? 0) || (_Field.size f <? max_read)
       | _ => true
       end
  end.

(** A computation that ends in an exception. *)
Definition fails {A} (r : result A) : Prop := exists e, r = Raise e.

(** The items [parse] appends, read one after the other: [decodes version
    tpl i b items b'] when the turns of the outer loop for the indices [i],
    [i + 1], ... started on the source [b] produce [items], in this order,
    and leave [b']. *)
Inductive decodes (version : Z) (tpl : template) :
    Z -> list byte -> list (gmap string value) -> list byte -> Prop :=
| decodes_nil i b : decodes version tpl i b [] b
| decodes_cons i b item b1 items b' :
    parse_item version i tpl b = Ok (item, b1) ->
    decodes version tpl (i + 1) b1 items b' ->
    decodes version tpl i b (item :: items) b'.

Definition header_version (buffer : list byte) : Z :=
  from_bytes_little (firstn 2 buffer).

Definition header_count (buffer : list byte) : Z :=
  from_bytes_little (firstn 4 (skipn 2 buffer)).

(** The length-prefixed string at the head of a source: the length its
    first two bytes announce, the bytes read for it, and what follows. *)
Definition str_length (buffer : list byte) : Z :=
  from_bytes_little (firstn 2 buffer).

Definition str_bytes (buffer : list byte) : list byte :=
  firstn (Z.to_nat (str_length buffer)) (skipn 2 buffer).

Definition str_rest (buffer : list byte) : list byte :=
  skipn (Z.to_nat (str_length buffer)) (skipn 2 buffer).

(** A character of the Basic Multilingual Plane (below U+10000); every
    ASCII character is one. *)
Definition is_bmp (c : Z) : bool := (0 <=? c) && (c <? 0x10000).

(** The field is gated out at this version of the container. *)
Definition gated (version : Z) (e : string * annotation * _Field.t) : bool :=
  version <? _Field.version (snd e).

(** A template with a dynamic opaque field after the [id]. *)
Definition opaque_schema : template :=
  [ ("id", ann_int, sized 4); ("_unknown", ann_None, dynamic) ]%string.

(** A template with a field annotated [float]. *)
Definition priced_schema : template :=
  [ ("id", ann_int, sized 4); ("price", ann_other "float", sized 4) ]%string.

(** A template with a field annotated [int | None]. *)
Definition union_schema : template :=
  [ ("id", ann_int, sized 4); ("price", ann_unnamed, sized 4) ]%string.

(** A template with an XOR-keyed name after the [id]. *)
Definition named_schema : template :=
  [ ("id", ann_int, sized 4); ("name", ann_str, keyed "PBG892FXX982ABC*") ]%string.

(** A container of version 3 for it: two items, both with the bytes of
    "Dirt" as their name. *)
Definition named_container : list byte :=
  [ x03; x00; x02; x00; x00; x00;
    x00; x00; x00; x00; x04; x00; x44; x69; x72; x74;
    x01; x00; x00; x00; x04; x00; x44; x69; x72; x74 ].


(** A computation that only moves forward in the source: what it leaves is
    a suffix of what it found, and when bytes are left, every read was
    served in full, so the result depends on the consumed bytes alone. *)
Definition forward {A} (m : M A) : Prop :=
  forall b a r,
    m b = Ok (a, r) ->
    exists used,
      b = used ++ r
      /\ (r <> [] -> forall tail, m (used ++ tail) = Ok (a, tail)).

(** The number of bytes a record takes when every field that is not gated
    out has a fixed size: an integer of [size >= 0] bytes or an opaque field
    of [size > 0] bytes.  [None] when some field is a string, a dynamic
    opaque field, an integer of negative size or of an unknown kind. *)
Definition field_width (version : Z) (e : string * annotation * _Field.t) : option Z :=
  match e with
  | (_, t, f) =>
    if version <? _Field.version f then Some 0
    else match t with
    | ann_int => if 0 <=? _Field.size f then Some (_Field.size f) else None
    | ann_None => if 0 <? _Field.size f then Some (_Field.size f) else None
    | _ => None
    end
  end.

Fixpoint record_width (version : Z) (tpl : template) : option Z :=
  match tpl with
  | [] => Some 0
  | e :: rest =>
    match field_width version e, record_width version rest with
    | Some w, Some ws => Some (w + ws)
    | _, _ => None
    end
  end.

(** The value fits the field: [None] for a gated or opaque field, a
    natural number below [256 ^ size] for an integer, a [str] for a string. *)
Definition has_type (version : Z) (t : annotation) (f : _Field.t) (v : value) : bool :=
  match v with
  | PyNone =>
    (version <? _Field.version f)
    || match t with ann_None => true | _ => false end
  | PyInt n =>
    negb (version <? _Field.version f)
    && match t with ann_int => true | _ => false end
    && (0 <=? n)
    && ((_Field.size f <? 0) || (n <? 256 ^ _Field.size f))
  | PyStr s =>
    negb (version <? _Field.version f)
    && match t with ann_str => true | _ => false end
    && is_str s
  end.

(** The field shows in a decoded item: it is neither gated out nor
    opaque. *)
Definition visible (version : Z) (e : string * annotation * _Field.t) : bool :=
  match e with
  | (_, t, f) =>
    negb (version <? _Field.version f)
    && match t with ann_None => false | _ => true end
  end.

(** The script, line 133: the attributes of the first item that are not
    [None], in the order of [first.__dict__], which is the order of the
    template. *)
Definition valid_keys (tpl : template) (first : gmap string value) : list string :=
  List.filter
    (fun k => match first !! k with
              | Some PyNone | None => false
              | Some _ => true
              end)
    (names tpl).


(** The field has no XOR key. *)
Definition unkeyed (e : string * annotation * _Field.t) : bool :=
  match _Field.xor_key (snd e) with
  | None => true
  | Some _ => false
  end.

(** * Properties *)

(** ** Primitive readers *)

Lemma byte_val_range b : 0 <= byte_val b < 256.
Proof.
  unfold byte_val. pose proof (Byte.to_N_bounded b). lia.
Qed.

Lemma from_bytes_little_range bs :
  0 <= from_bytes_little bs < 256 ^ Z.of_nat (length bs).
Proof.
  induction bs as [|b bs IH]; [simpl; lia|].
  cbn [from_bytes_little length]. rewrite Nat2Z.inj_succ, Z.pow_succ_r by lia.
  pose proof (byte_val_range b). lia.
Qed.

Lemma parse_int_eq size buffer :
  _parse_int size buffer
  = Ok (from_bytes_little (fst (read buffer size)), snd (read buffer size)).
Proof.
  unfold _parse_int, bind, read_bytes, ret. by destruct (read buffer size).
Qed.

Lemma read_nil size : read [] size = ([], []).
Proof.
  unfold read. destruct (size <? 0); [done|].
  by rewrite firstn_nil, skipn_nil.
Qed.


Lemma read_exact buffer size :
  0 <= size <= Z.of_nat (length buffer) ->
  length (fst (read buffer size)) = Z.to_nat size
  /\ fst (read buffer size) ++ snd (read buffer size) = buffer.
Proof.
  intros Hsize. unfold read.
  destruct (Z.ltb_spec size 0) as [Hneg|Hpos]; [lia|]. cbn [fst snd].
  split; [rewrite length_firstn; lia | apply firstn_skipn].
Qed.

Lemma parse_str_nil : _parse_str [] = Ok ([], []).
Proof. reflexivity. Qed.

Lemma parse_field_nil version i k t f :
  implemented version (k, t, f) = true ->
  parse_field version i k t f [] = Ok (blank version t f, []).
Proof.
  unfold implemented, parse_field, blank. intros Himpl.
  destruct (version <? _Field.version f); [done|].
  destruct t; try discriminate.
  - unfold bind. by rewrite parse_int_eq, read_nil.
  - unfold bind. rewrite parse_str_nil.
    destruct (_Field.xor_key f); [destruct (3 <=? version)|]; done.
  - unfold bind. destruct (0 <? _Field.size f).
    + by rewrite parse_int_eq, read_nil.
    + by rewrite parse_str_nil.
Qed.

Lemma parse_fields_nil version i tpl item :
  forallb (implemented version) tpl = true ->
  parse_fields version i tpl item [] = Ok (blank_item version tpl item, []).
Proof.
  revert item. induction tpl as [|[[k t] f] tpl IH]; intros item Himpl; [done|].
  cbn [forallb] in Himpl. apply andb_prop in Himpl as [Hhd Htl].
  cbn [parse_fields blank_item]. unfold bind.
  rewrite parse_field_nil by done. by apply IH.
Qed.

(** ** Decoded strings *)

Lemma is_str_cons c s :
  0 <= c < 0x110000 -> is_str s = true -> is_str (c :: s) = true.
Proof.
  intros Hc Hs. cbn [is_str forallb]. fold (is_str s). rewrite Hs.
  unfold is_code_point. rewrite andb_true_r. apply andb_true_intro. lia.
Qed.

Lemma utf8_decode_is_str_upto (n : nat) :
  forall bs s, (length bs <= n)%nat -> utf8_decode bs = Some s -> is_str s = true.
Proof.
  induction n as [|n IH]; intros bs s Hlen.
  - destruct bs; [|simpl in Hlen; lia]. by intros [= <-].
  - destruct bs as [|b0 r0]; [by intros [= <-]|].
    cbn [length] in Hlen. cbn [utf8_decode]. cbv zeta.
    pose proof (byte_val_range b0) as Hv0.
    destruct (Z.ltb_spec (byte_val b0) 128).
    { intros Hs; apply fmap_Some in Hs as (s' & Hs' & ->).
      apply is_str_cons; [lia | eapply IH; [|exact Hs']; lia]. }
    destruct (Z.ltb_spec (byte_val b0) 194); [discriminate|].
    destruct (Z.ltb_spec (byte_val b0) 224).
    { destruct r0 as [|b1 r1]; [discriminate|].
      pose proof (byte_val_range b1) as Hv1. cbn [length] in Hlen.
      destruct (is_cont (byte_val b1)) eqn:Hc; [|discriminate].
      intros Hs; apply fmap_Some in Hs as (s' & Hs' & ->).
      unfold is_cont in Hc.
      apply is_str_cons; [lia | eapply IH; [|exact Hs']; lia]. }
    destruct (Z.ltb_spec (byte_val b0) 240).
    { destruct r0 as [|b1 [|b2 r2]]; [discriminate|discriminate|].
      pose proof (byte_val_range b1) as Hv1. pose proof (byte_val_range b2) as Hv2.
      cbn [length] in Hlen.
      match goal with |- (if ?c then _ else _) = _ -> _ => destruct c eqn:Hc end;
        [|discriminate].
      intros Hs; apply fmap_Some in Hs as (s' & Hs' & ->).
      unfold is_cont in Hc.
      apply is_str_cons; [lia | eapply IH; [|exact Hs']; lia]. }
    destruct (Z.ltb_spec (byte_val b0) 245); [|discriminate].
    destruct r0 as [|b1 [|b2 [|b3 r3]]]; try discriminate.
    pose proof (byte_val_range b1) as Hv1. pose proof (byte_val_range b2) as Hv2.
    pose proof (byte_val_range b3) as Hv3.
    cbn [length] in Hlen.
    match goal with |- (if ?c then _ else _) = _ -> _ => destruct c eqn:Hc end;
      [|discriminate].
    intros Hs; apply fmap_Some in Hs as (s' & Hs' & ->).
    unfold is_cont in Hc.
    apply is_str_cons; [lia | eapply IH; [|exact Hs']; lia].
Qed.

Lemma utf8_decode_is_str bs s : utf8_decode bs = Some s -> is_str s = true.
Proof. by apply (utf8_decode_is_str_upto (length bs)). Qed.

Example utf8_decode_two_bytes : utf8_decode [xc3; xa9] = Some [0xE9].
Proof. reflexivity. Qed.

Example utf8_decode_three_bytes : utf8_decode [xe2; x82; xac] = Some [0x20AC].
Proof. reflexivity. Qed.

Example utf8_decode_four_bytes :
  utf8_decode [xf0; x9f; x98; x80] = Some [0x1F600].
Proof. reflexivity. Qed.

Example utf8_decode_malformed :
  utf8_decode [xff] = None /\ utf8_decode [xc0; x80] = None
  /\ utf8_decode [xed; xa0; x80] = None /\ utf8_decode [xe2; x82] = None
  /\ utf8_decode [xf4; x90; x80; x80] = None.
Proof. repeat split. Qed.






(** ** The loops of [parse] *)

Lemma parse_fields_app version i pre post item buffer :
  parse_fields version i (pre ++ post) item buffer
  = match parse_fields version i pre item buffer with
    | Ok (item1, buffer1) => parse_fields version i post item1 buffer1
    | Raise e => Raise e
    end.
Proof.
  revert item buffer.
  induction pre as [|[[k t] f] pre IH]; intros item buffer; [done|].
  cbn [app parse_fields]. unfold bind.
  destruct (parse_field version i k t f buffer) as [[v buffer1]|e]; [|done].
  apply IH.
Qed.

Lemma parse_field_gated version i k t f buffer :
  version < _Field.version f ->
  parse_field version i k t f buffer = Ok (PyNone, buffer).
Proof.
  intros Hgate. unfold parse_field.
  destruct (Z.ltb_spec version (_Field.version f)); [done | lia].
Qed.

Lemma parse_field_present version i k t f :
  _Field.version f <= version ->
  parse_field version i k t f
  = match t with
    | ann_int => let* n := _parse_int (_Field.size f) in ret (PyInt n)
    | ann_str =>
      let* s := _parse_str in
      match _Field.xor_key f with
      | Some key =>
        if 3 <=? version
        then let* s' := lift (_xor_str s key i) in ret (PyStr s')
        else ret (PyStr s)
      | None => ret (PyStr s)
      end
    | ann_None =>
      if 0 <? _Field.size f
      then let* _ := _parse_int (_Field.size f) in ret PyNone
      else let* _ := _parse_str in ret PyNone
    | ann_other tname => raise (UnknownFieldType k tname)
    | ann_unnamed => raise (AttributeError "__name__")
    end.
Proof.
  intros Hpresent. unfold parse_field.
  destruct (Z.ltb_spec version (_Field.version f)); [lia | done].
Qed.

(** C2: a field whose [version] is above the version of the container is
    set to [None] and nothing is read for it: the source is left as it was,
    and the rest of the record is decoded from the very bytes the field found.
    A field annotated [int] that is not gated out always holds an integer
    (0 included), never [None], so the two cases cannot be confused. *)
Theorem gated_field_absent version i :
  (forall k t f,
      version < _Field.version f ->
      (forall buffer, parse_field version i k t f buffer = Ok (PyNone, buffer))
      /\ (forall pre post item buffer,
          parse_fields version i (pre ++ (k, t, f) :: post) item buffer
          = match parse_fields version i pre item buffer with
            | Ok (item1, buffer1) =>
              parse_fields version i post (<[k := PyNone]> item1) buffer1
            | Raise e => Raise e
            end))
  /\ (forall k f buffer,
      _Field.version f <= version ->
      exists n rest,
        parse_field version i k ann_int f buffer = Ok (PyInt n, rest)
        /\ 0 <= n /\ PyInt n <> PyNone).
Proof.
  split.
  - intros k t f Hgate. split.
    + intros buffer. by apply parse_field_gated.
    + intros pre post item buffer. rewrite parse_fields_app.
      destruct (parse_fields version i pre item buffer) as [[item1 buffer1]|e];
        [|done].
      cbn [parse_fields]. unfold bind. by rewrite parse_field_gated.
  - intros k f buffer Hpresent. rewrite parse_field_present by done.
    unfold bind. rewrite parse_int_eq. unfold ret.
    eexists _, _. split; [done|]. split; [|done].
    apply from_bytes_little_range.
Qed.

Lemma gated_field_absent_witness :
  parse_field 3 0 "pet_name" ann_str (since 4 dynamic) [x02; x00; x41; x42]
  = Ok (PyNone, [x02; x00; x41; x42]).
Proof.
  apply (proj1 (gated_field_absent 3 0) "pet_name"%string ann_str (since 4 dynamic)).
  simpl. lia.
Defined.

Lemma parse_item_ok version i tpl b item b' :
  parse_item version i tpl b = Ok (item, b')
  <-> parse_fields version i tpl ∅ b = Ok (item, b')
      /\ item !! "id"%string = Some (PyInt i).
Proof.
  unfold parse_item, bind, check_id.
  destruct (parse_fields version i tpl ∅ b) as [[it b1]|e]; [|split; [done|by intros [? _]]].
  destruct (it !! "id"%string) as [[| n |s]|] eqn:Hid; unfold raise, ret.
  - split; [done|]. intros [[= -> ->] Hid']. congruence.
  - destruct (Z.eqb_spec n i) as [->|Hne].
    + split; [by intros [= -> ->] | by intros [[= -> ->] _]].
    + split; [done|]. intros [[= -> ->] Hid']. congruence.
  - split; [done|]. intros [[= -> ->] Hid']. congruence.
  - split; [done|]. intros [[= -> ->] Hid']. congruence.
Qed.

Lemma parse_item_mismatch version i tpl b item b' v :
  parse_fields version i tpl ∅ b = Ok (item, b') ->
  item !! "id"%string = Some v ->
  v <> PyInt i ->
  parse_item version i tpl b = Raise (OffsetMismatch i v version).
Proof.
  intros Hfields Hid Hne. unfold parse_item, bind, check_id.
  rewrite Hfields, Hid. destruct v as [| n |s]; try done.
  destruct (Z.eqb_spec n i) as [->|]; [done|]. done.
Qed.

Section outer_loop.
Variables (version : Z) (tpl : template).

Lemma parse_items_decodes n :
  forall i acc b items b',
    parse_items version tpl n i acc b = Ok (items, b')
    <-> exists its, items = acc ++ its /\ length its = n
                    /\ decodes version tpl i b its b'.
Proof.
  induction n as [|n IH]; intros i acc b items b'.
  - cbn [parse_items]. unfold ret. split.
    + intros [= <- <-]. exists []. rewrite app_nil_r. repeat split. constructor.
    + intros (its & -> & Hlen & Hdec). destruct its; [|discriminate].
      inversion Hdec; subst. by rewrite app_nil_r.
  - cbn [parse_items]. unfold bind. split.
    + destruct (parse_item version i tpl b) as [[item b1]|e] eqn:Hitem; [|done].
      intros Hrest. apply IH in Hrest as (its & -> & Hlen & Hdec).
      exists (item :: its). rewrite <- app_assoc. repeat split.
      * simpl. by rewrite Hlen.
      * by econstructor.
    + intros (its & -> & Hlen & Hdec).
      destruct its as [|item its]; [discriminate|].
      inversion Hdec as [|? ? ? b1 ? ? Hitem Hrest]; subst.
      rewrite Hitem. apply IH. exists its. rewrite <- app_assoc.
      repeat split; [by injection Hlen | done].
Qed.

Lemma decodes_lookup i b items b' (j : nat) item :
  decodes version tpl i b items b' ->
  items !! j = Some item ->
  exists bj bj', parse_item version (i + Z.of_nat j) tpl bj = Ok (item, bj').
Proof.
  intros Hdec. revert j. induction Hdec as [|i b it b1 items b' Hit Hdec IH];
    intros j Hj; [done|].
  destruct j as [|j]; cbn in Hj.
  - injection Hj as ->. exists b, b1. by rewrite Z.add_0_r.
  - destruct (IH j Hj) as (bj & bj' & Hparse). exists bj, bj'.
    rewrite <- Hparse. f_equal. lia.
Qed.

Lemma parse_items_abort m i b items bn e :
  decodes version tpl i b items bn ->
  parse_item version (i + Z.of_nat (length items)) tpl bn = Raise e ->
  forall acc, parse_items version tpl (length items + S m) i acc b = Raise e.
Proof.
  intros Hdec. induction Hdec as [|i b it b1 items b' Hit Hdec IH];
    intros Hfail acc.
  - cbn in *. rewrite Z.add_0_r in Hfail. unfold bind. by rewrite Hfail.
  - cbn [length Nat.add parse_items]. unfold bind. rewrite Hit.
    apply IH. rewrite <- Hfail. f_equal. cbn [length]. lia.
Qed.

End outer_loop.

Lemma parse_eq tpl buffer :
  parse tpl buffer
  = match parse_items (header_version buffer) tpl
            (Z.to_nat (header_count buffer)) 0 [] (skipn 6 buffer) with
    | Ok (items, rest) =>
      Ok (header_version buffer, header_count buffer, items, rest)
    | Raise e => Raise e
    end.
Proof.
  unfold parse, bind. rewrite !parse_int_eq. unfold read. cbn [Z.ltb Z.compare fst snd].
  change (Z.to_nat 2) with 2%nat. change (Z.to_nat 4) with 4%nat.
  rewrite skipn_skipn. cbn [Nat.add]. unfold header_version, header_count.
  by destruct (parse_items _ _ _ _ _ _) as [[items rest]|e].
Qed.

(** The whole decode aborts with the exception of the first turn of the
    outer loop that raises. *)
Lemma parse_abort tpl buffer items bn e :
  decodes (header_version buffer) tpl 0 (skipn 6 buffer) items bn ->
  Z.of_nat (length items) < header_count buffer ->
  parse_item (header_version buffer) (Z.of_nat (length items)) tpl bn = Raise e ->
  parse tpl buffer = Raise e.
Proof.
  intros Hdec Hlt Hfail. rewrite parse_eq.
  replace (Z.to_nat (header_count buffer))
    with (length items + S (Z.to_nat (header_count buffer) - length items - 1))%nat
    by lia.
  by rewrite (parse_items_abort _ _ _ _ _ _ _ _ Hdec Hfail).
Qed.

(** ** Attributes of a decoded item *)

Lemma parse_fields_lookup_other version i tpl k :
  k ∉ names tpl ->
  forall item b item' b',
    parse_fields version i tpl item b = Ok (item', b') ->
    item' !! k = item !! k.
Proof.
  induction tpl as [|[[k0 t0] f0] tpl IH]; intros Hk item b item' b'.
  - by intros [= <- <-].
  - cbn [names map fst] in Hk. apply not_elem_of_cons in Hk as [Hne Hk].
    cbn [parse_fields]. unfold bind.
    destruct (parse_field version i k0 t0 f0 b) as [[v b1]|e]; [|done].
    intros Hrest. rewrite (IH Hk _ _ _ _ Hrest). by apply lookup_insert_ne.
Qed.

(** The attribute [k] of a decoded item is what the loop body returned for
    the field [k] of the template. *)
Lemma parse_fields_lookup version i tpl k t f item b item' b' :
  NoDup (names tpl) ->
  (k, t, f) ∈ tpl ->
  parse_fields version i tpl item b = Ok (item', b') ->
  exists bk v bk',
    parse_field version i k t f bk = Ok (v, bk') /\ item' !! k = Some v.
Proof.
  intros Hnodup Hin Hparse.
  apply list_elem_of_split in Hin as (pre & post & ->).
  unfold names in Hnodup. rewrite map_app in Hnodup. cbn [map fst] in Hnodup.
  apply NoDup_app in Hnodup as (_ & _ & Hpost). apply NoDup_cons in Hpost as [Hk _].
  rewrite parse_fields_app in Hparse.
  destruct (parse_fields version i pre item b) as [[item1 b1]|e]; [|done].
  cbn [parse_fields] in Hparse. unfold bind in Hparse.
  destruct (parse_field version i k t f b1) as [[v b2]|e] eqn:Hfield; [|done].
  exists b1, v, b2. split; [done|].
  rewrite (parse_fields_lookup_other _ _ _ _ Hk _ _ _ _ Hparse).
  apply lookup_insert_eq.
Qed.

(** ** The container *)

(** C3: in a container that decodes, the item at every position [i] has
    [id = i].  And when the items before position [i] decode, and the fields
    of item [i] decode with an [id] that is not the integer [i], the whole
    decode raises the offset-mismatch error built from [i], that [id] and
    the version of the container: nothing is returned. *)
Theorem identity_check tpl buffer :
  (forall version count items rest,
      parse tpl buffer = Ok (version, count, items, rest) ->
      forall (i : nat) item,
        items !! i = Some item ->
        item !! "id"%string = Some (PyInt (Z.of_nat i)))
  /\ (forall items bn item bn' v,
      decodes (header_version buffer) tpl 0 (skipn 6 buffer) items bn ->
      Z.of_nat (length items) < header_count buffer ->
      parse_fields (header_version buffer) (Z.of_nat (length items)) tpl ∅ bn
      = Ok (item, bn') ->
      item !! "id"%string = Some v ->
      v <> PyInt (Z.of_nat (length items)) ->
      parse tpl buffer
      = Raise (OffsetMismatch (Z.of_nat (length items)) v (header_version buffer))).
Proof.
  split.
  - intros version count items rest Hparse i item Hi. rewrite parse_eq in Hparse.
    destruct (parse_items _ _ _ _ _ _) as [[items' rest']|e] eqn:Hitems; [|done].
    injection Hparse as <- <- <- <-.
    apply parse_items_decodes in Hitems as (its & -> & _ & Hdec).
    destruct (decodes_lookup _ _ _ _ _ _ _ _ Hdec Hi) as (bj & bj' & Hitem).
    apply parse_item_ok in Hitem as [_ Hid]. by rewrite Z.add_0_l in Hid.
  - intros items bn item bn' v Hdec Hlt Hfields Hid Hne.
    apply (parse_abort _ _ _ _ _ Hdec Hlt).
    by apply (parse_item_mismatch _ _ _ _ _ _ _ Hfields Hid).
Qed.

Lemma identity_check_witness :
  parse reduced_schema
    [x01; x00; x02; x00; x00; x00;
     x00; x00; x00; x00; x05;
     x02; x00; x00; x00; x07]
  = Raise (OffsetMismatch 1 (PyInt 2) 1).
Proof.
  apply (proj2 (identity_check reduced_schema
                  [x01; x00; x02; x00; x00; x00;
                   x00; x00; x00; x00; x05;
                   x02; x00; x00; x00; x07])
           [ <["flag"%string := PyInt 5]> (<["id"%string := PyInt 0]> ∅) ]
           [x02; x00; x00; x00; x07]
           (<["flag"%string := PyInt 7]> (<["id"%string := PyInt 2]> ∅))
           [] (PyInt 2)).
  - eapply decodes_cons; [vm_compute; reflexivity | apply decodes_nil].
  - vm_compute. reflexivity.
  - vm_compute. reflexivity.
  - vm_compute. reflexivity.
  - discriminate.
Defined.

(** C6: [parse] returns [(version, count, items)] exactly when [version] is
    the little-endian value of the first two bytes, [count] that of the next
    four, and [items] are [count] items decoded one after the other from the
    bytes that follow, for the indices 0, 1, ... in this order. *)
Theorem parse_container tpl buffer version count items rest :
  parse tpl buffer = Ok (version, count, items, rest)
  <-> version = header_version buffer
      /\ count = header_count buffer
      /\ Z.of_nat (length items) = count
      /\ decodes version tpl 0 (skipn 6 buffer) items rest.
Proof.
  rewrite parse_eq. split.
  - destruct (parse_items _ _ _ _ _ _) as [[items' rest']|e] eqn:Hitems; [|done].
    intros [= <- <- <- <-].
    apply parse_items_decodes in Hitems as (its & -> & Hlen & Hdec).
    cbn [app]. repeat split; [|done]. rewrite Hlen.
    pose proof (from_bytes_little_range (firstn 4 (skipn 2 buffer))).
    unfold header_count. lia.
  - intros (-> & -> & Hlen & Hdec).
    assert (parse_items (header_version buffer) tpl
              (Z.to_nat (header_count buffer)) 0 [] (skipn 6 buffer)
            = Ok (items, rest)) as ->; [|done].
    apply parse_items_decodes. exists items. repeat split; [lia | done].
Qed.

Lemma parse_container_witness :
  decodes 1 reduced_schema 0
    [x00; x00; x00; x00; x05; x01; x00; x00; x00; x09]
    [ <["flag"%string := PyInt 5]> (<["id"%string := PyInt 0]> ∅);
      <["flag"%string := PyInt 9]> (<["id"%string := PyInt 1]> ∅) ] [].
Proof.
  apply (proj1 (parse_container reduced_schema
                  [x01; x00; x02; x00; x00; x00;
                   x00; x00; x00; x00; x05; x01; x00; x00; x00; x09]
                  1 2 _ [])).
  vm_compute. reflexivity.
Defined.

(** C7: with the two-field template (a 4-byte [id], a 1-byte [flag]) the
    bytes 01 00, 01 00 00 00, 00 00 00 00 05 decode to version 1, count 1
    and one item with [id = 0] and [flag = 5]; no byte is left. *)
Theorem reduced_schema_example :
  let item : gmap string value :=
    <["flag"%string := PyInt 5]> (<["id"%string := PyInt 0]> ∅) in
  parse reduced_schema [x01; x00; x01; x00; x00; x00; x00; x00; x00; x00; x05]
  = Ok (1, 1, [item], [])
  /\ item !! "id"%string = Some (PyInt 0)
  /\ item !! "flag"%string = Some (PyInt 5)
  /\ dom item = {["id"%string; "flag"%string]}.
Proof.
  intros item. split; [vm_compute; reflexivity|].
  split; [reflexivity|]. split; [reflexivity|].
  subst item. rewrite !dom_insert_L. set_solver.
Qed.

(** ** [_xor_str] *)

Lemma lxor_code_point c k :
  is_code_point c = true -> is_bmp k = true -> is_code_point (Z.lxor c k) = true.
Proof.
  unfold is_code_point, is_bmp. intros Hc Hk.
  apply andb_prop in Hc as [Hc0 Hc1]. apply andb_prop in Hk as [Hk0 Hk1].
  apply andb_true_intro. split.
  - apply Z.leb_le, Z.lxor_nonneg. lia.
  - apply Z.ltb_lt.
    assert (Z.lxor c k / 2 ^ 16 = c / 2 ^ 16) as Hhigh.
    { rewrite <- !Z.shiftr_div_pow2 by lia. rewrite Z.shiftr_lxor.
      rewrite (Z.shiftr_div_pow2 k) by lia.
      rewrite (Z.div_small k) by lia. apply Z.lxor_0_r. }
    change (2 ^ 16) with 65536 in Hhigh.
    pose proof (Z.div_mod (Z.lxor c k) 65536) as Hx.
    pose proof (Z.mod_pos_bound (Z.lxor c k) 65536) as Hxm.
    pose proof (Z.div_mod c 65536) as Hcd.
    pose proof (Z.mod_pos_bound c 65536) as Hcm.
    lia.
Qed.

Lemma xor_str_from_involution key offset str :
  is_str str = true ->
  forall i t,
    _xor_str_from i str key offset = Ok t ->
    _xor_str_from i t key offset = Ok str.
Proof.
  induction str as [|c rest IH]; intros Hstr i t.
  - by intros [= <-].
  - cbn [is_str forallb] in Hstr. apply andb_prop in Hstr as [Hc Hrest].
    cbn [_xor_str_from].
    destruct (Z.of_nat (length key) =? 0) eqn:Hlen; [done|].
    set (k := nth _ key 0).
    destruct (is_code_point (Z.lxor c k)) eqn:Hx; [|done].
    destruct (_xor_str_from (i + 1) rest key offset) as [r|e] eqn:Hr; [|done].
    intros [= <-]. cbn [_xor_str_from]. rewrite Hlen. fold k.
    rewrite Z.lxor_assoc, Z.lxor_nilpotent, Z.lxor_0_r, Hc.
    by rewrite (IH Hrest _ _ Hr).
Qed.

Lemma xor_str_from_returns key offset str :
  key <> [] ->
  forallb is_bmp key = true ->
  is_str str = true ->
  forall i, exists t, _xor_str_from i str key offset = Ok t.
Proof.
  intros Hkey Hbmp. induction str as [|c rest IH]; intros Hstr i.
  - by exists [].
  - cbn [is_str forallb] in Hstr. apply andb_prop in Hstr as [Hc Hrest].
    cbn [_xor_str_from].
    destruct (Z.eqb_spec (Z.of_nat (length key)) 0) as [Hlen|Hlen].
    { destruct key; [done | cbn in Hlen; lia]. }
    set (k := nth _ key 0).
    assert (is_bmp k = true) as Hk.
    { subst k. destruct (nth_in_or_default
                 (Z.to_nat ((i + offset) mod Z.of_nat (length key))) key 0)
        as [Hin| ->]; [|done].
      rewrite forallb_forall in Hbmp. by apply Hbmp. }
    rewrite (lxor_code_point _ _ Hc Hk).
    destruct (IH Hrest (i + 1)) as [r ->]. by eexists.
Qed.

(** C5 (as stated, refuted): with the one-character text U+100000 and the
    one-character key U+10000 the first application already raises, because
    the XOR of the two code points is 0x110000, which [chr] refuses. *)
Lemma xor_str_involution_counterexample :
  is_str [0x100000] = true /\ is_str [0x10000] = true /\ [0x10000] <> @nil Z
  /\ _xor_str [0x100000] [0x10000] 0 = Raise (ChrValueError 0x110000)
  /\ ~ (exists t, _xor_str [0x100000] [0x10000] 0 = Ok t
                  /\ _xor_str t [0x10000] 0 = Ok [0x100000]).
Proof.
  repeat split; try done.
  intros (t & Ht & _). vm_compute in Ht. discriminate.
Qed.

(** C5 (amended): for every text, every key and every offset, when
    [_xor_str] returns, applying it again with the same key and offset gives
    the text back; and it does return, so the transform is an involution, for
    every non-empty key whose characters are below U+10000, as all ASCII keys
    are. *)
Theorem xor_str_involution str key offset :
  is_str str = true ->
  (forall t, _xor_str str key offset = Ok t -> _xor_str t key offset = Ok str)
  /\ (key <> [] -> forallb is_bmp key = true ->
      exists t, _xor_str str key offset = Ok t
                /\ _xor_str t key offset = Ok str).
Proof.
  intros Hstr. split.
  - intros t. by apply xor_str_from_involution.
  - intros Hkey Hbmp.
    destruct (xor_str_from_returns key offset str Hkey Hbmp Hstr 0) as [t Ht].
    exists t. split; [done|]. by apply xor_str_from_involution.
Qed.

Lemma xor_str_involution_witness :
  exists t, _xor_str (str_of "Dirt") (str_of "PBG892FXX982ABC*") 2 = Ok t
            /\ _xor_str t (str_of "PBG892FXX982ABC*") 2 = Ok (str_of "Dirt").
Proof.
  apply (proj2 (xor_str_involution (str_of "Dirt") (str_of "PBG892FXX982ABC*") 2
                  eq_refl)).
  - discriminate.
  - reflexivity.
Defined.

(** ** Strings and the XOR key *)

Lemma parse_str_eq buffer :
  _parse_str buffer
  = match utf8_decode (str_bytes buffer) with
    | Some s => Ok (s, str_rest buffer)
    | None => Raise UnicodeDecodeError
    end.
Proof.
  unfold _parse_str, bind. rewrite parse_int_eq.
  change (read buffer 2) with (firstn 2 buffer, skipn 2 buffer). cbn [fst snd].
  fold (str_length buffer). unfold read_bytes, read.
  pose proof (from_bytes_little_range (firstn 2 buffer)) as Hrange.
  fold (str_length buffer) in Hrange.
  destruct (Z.ltb_spec (str_length buffer) 0); [lia|].
  fold (str_bytes buffer) (str_rest buffer).
  by destruct (utf8_decode (str_bytes buffer)).
Qed.

(** What [_parse_str] returns is a [str]: [_xor_str] is only ever applied
    to texts whose characters [chr] accepts. *)
Lemma parse_str_is_str buffer s rest :
  _parse_str buffer = Ok (s, rest) -> is_str s = true.
Proof.
  rewrite parse_str_eq.
  destruct (utf8_decode (str_bytes buffer)) as [s'|] eqn:Hutf; [|done].
  intros [= <- _]. by apply utf8_decode_is_str with (str_bytes buffer).
Qed.

Lemma parse_ok_decodes tpl buffer version count items rest :
  parse tpl buffer = Ok (version, count, items, rest) ->
  decodes version tpl 0 (skipn 6 buffer) items rest.
Proof.
  rewrite parse_eq.
  destruct (parse_items _ _ _ _ _ _) as [[items' rest']|e] eqn:Hitems; [|done].
  intros [= <- <- <- <-].
  by apply parse_items_decodes in Hitems as (its & -> & _ & Hdec).
Qed.

Lemma parse_field_keyed version i k f buffer s rest key :
  _Field.version f <= version ->
  _parse_str buffer = Ok (s, rest) ->
  _Field.xor_key f = Some key ->
  3 <= version ->
  parse_field version i k ann_str f buffer
  = match _xor_str s key i with
    | Ok s' => Ok (PyStr s', rest)
    | Raise e => Raise e
    end.
Proof.
  intros Hpresent Hstr Hkey Hv.
  rewrite parse_field_present by done. unfold bind. rewrite Hstr, Hkey.
  destruct (Z.leb_spec 3 version); [|lia]. unfold lift, ret.
  by destruct (_xor_str s key i).
Qed.

Lemma parse_field_raw version i k f buffer s rest :
  _Field.version f <= version ->
  _parse_str buffer = Ok (s, rest) ->
  _Field.xor_key f = None \/ version < 3 ->
  parse_field version i k ann_str f buffer = Ok (PyStr s, rest).
Proof.
  intros Hpresent Hstr Hraw.
  rewrite parse_field_present by done. unfold bind. rewrite Hstr.
  destruct (_Field.xor_key f) as [key|]; [|done].
  destruct Hraw as [|Hv]; [done|].
  destruct (Z.leb_spec 3 version); [lia | done].
Qed.

Lemma xor_str_from_chars key offset str :
  forall i t,
    _xor_str_from i str key offset = Ok t ->
    length t = length str
    /\ forall (p : nat) c,
        str !! p = Some c ->
        t !! p
        = Some (Z.lxor c
                  (nth (Z.to_nat ((i + Z.of_nat p + offset) mod Z.of_nat (length key)))
                     key 0)).
Proof.
  induction str as [|c rest IH]; intros i t; cbn [_xor_str_from].
  - intros [= <-]. by split.
  - destruct (Z.of_nat (length key) =? 0); [done|].
    destruct (is_code_point _); [|done].
    destruct (_xor_str_from (i + 1) rest key offset) as [r|e] eqn:Hr; [|done].
    intros [= <-]. destruct (IH _ _ Hr) as [Hlen Hchars].
    split; [cbn [length]; by rewrite Hlen|].
    intros [|p] c' Hp.
    + injection Hp as <-. by rewrite Z.add_0_r.
    + pose proof (Hchars p c' Hp) as Ht. etransitivity; [exact Ht|].
      by replace (i + Z.of_nat (S p) + offset) with (i + 1 + Z.of_nat p + offset)
        by lia.
Qed.

Lemma decodes_app_inv version tpl ipre :
  forall i b item ipost b',
    decodes version tpl i b (ipre ++ item :: ipost) b' ->
    exists bj bj',
      decodes version tpl i b ipre bj
      /\ parse_item version (i + Z.of_nat (length ipre)) tpl bj = Ok (item, bj').
Proof.
  induction ipre as [|it ipre IH]; intros i b item ipost b' Hdec;
    inversion Hdec as [|? ? ? b1 ? ? Hit Hrest]; subst.
  - exists b, b1. split; [constructor | by rewrite Z.add_0_r].
  - destruct (IH _ _ _ _ _ Hrest) as (bj & bj' & Hpre & Hitem).
    exists bj, bj'. split; [by econstructor|].
    rewrite <- Hitem. f_equal. cbn [length]. lia.
Qed.

(** The source a given list of items leaves is determined. *)
Lemma decodes_functional version tpl i b items b1 b2 :
  decodes version tpl i b items b1 ->
  decodes version tpl i b items b2 ->
  b1 = b2.
Proof.
  intros Hdec. revert b2.
  induction Hdec as [|i b it b' items b1 Hit Hdec IH]; intros b2 Hdec2;
    inversion Hdec2 as [|? ? ? b'' ? ? Hit2 Hrest2]; subst; [done|].
  rewrite Hit in Hit2. injection Hit2 as <-. by apply IH.
Qed.

(** C4: for a string field that is not gated out, the text read from the
    source is passed through [_xor_str] exactly when the field has an XOR key
    and the version of the container is at least 3; otherwise the field holds
    the text as read.  So the same bytes give the raw text at version 2 and
    the transformed text at version 3.  The offset is the index of the item:
    in a container that decodes, take any item, the items [ipre] before it
    and the fields [tpre] before the keyed field.  Then the field holds, for
    the text [s] that [_parse_str] reads where the items [ipre] and the
    fields [tpre] of this item leave the source, a text of the same length
    whose character at every position [p] is the XOR of the character of
    [s] with the character of the key at [(p + len(ipre)) mod len(key)]. *)
Theorem xor_activation k f :
  (forall version i buffer s rest key,
      _Field.version f <= version ->
      _parse_str buffer = Ok (s, rest) ->
      _Field.xor_key f = Some key ->
      3 <= version ->
      parse_field version i k ann_str f buffer
      = match _xor_str s key i with
        | Ok s' => Ok (PyStr s', rest)
        | Raise e => Raise e
        end)
  /\ (forall version i buffer s rest,
      _Field.version f <= version ->
      _parse_str buffer = Ok (s, rest) ->
      _Field.xor_key f = None \/ version < 3 ->
      parse_field version i k ann_str f buffer = Ok (PyStr s, rest))
  /\ (forall i buffer s rest key,
      _Field.version f <= 2 ->
      _parse_str buffer = Ok (s, rest) ->
      _Field.xor_key f = Some key ->
      parse_field 2 i k ann_str f buffer = Ok (PyStr s, rest)
      /\ parse_field 3 i k ann_str f buffer
         = match _xor_str s key i with
           | Ok s' => Ok (PyStr s', rest)
           | Raise e => Raise e
           end)
  /\ (forall version tpl tpre tpost container count items ipre item ipost rest key,
      tpl = tpre ++ (k, ann_str, f) :: tpost ->
      NoDup (names tpl) ->
      _Field.version f <= version ->
      _Field.xor_key f = Some key ->
      3 <= version ->
      parse tpl container = Ok (version, count, items, rest) ->
      items = ipre ++ item :: ipost ->
      exists bj item1 bk s rest' s',
        decodes version tpl 0 (skipn 6 container) ipre bj
        /\ parse_fields version (Z.of_nat (length ipre)) tpre ∅ bj = Ok (item1, bk)
        /\ _parse_str bk = Ok (s, rest')
        /\ item !! k = Some (PyStr s')
        /\ length s' = length s
        /\ forall (p : nat) c,
            s !! p = Some c ->
            s' !! p
            = Some (Z.lxor c
                      (nth (Z.to_nat ((Z.of_nat p + Z.of_nat (length ipre))
                                      mod Z.of_nat (length key)))
                         key 0))).
Proof.
  split; [|split; [|split]].
  - intros version i buffer s rest key. apply parse_field_keyed.
  - intros version i buffer s rest. apply parse_field_raw.
  - intros i buffer s rest key Hpresent Hstr Hkey. split.
    + apply parse_field_raw; [done | done | right; lia].
    + apply parse_field_keyed; [lia | done | done | lia].
  - intros version tpl tpre tpost container count items ipre item ipost rest key
      -> Hnodup Hpresent Hkey Hv Hparse ->.
    apply parse_ok_decodes in Hparse as Hdec.
    destruct (decodes_app_inv _ _ _ _ _ _ _ _ Hdec) as (bj & bj' & Hpre & Hitem).
    rewrite Z.add_0_l in Hitem. apply parse_item_ok in Hitem as [Hfields _].
    unfold names in Hnodup. rewrite map_app in Hnodup. cbn [map fst] in Hnodup.
    apply NoDup_app in Hnodup as (_ & _ & Hpost).
    apply NoDup_cons in Hpost as [Hk _].
    rewrite parse_fields_app in Hfields.
    destruct (parse_fields version _ tpre ∅ bj) as [[item1 bk]|e] eqn:Htpre; [|done].
    cbn [parse_fields] in Hfields. unfold bind in Hfields.
    destruct (parse_field version _ k ann_str f bk) as [[v b2]|e] eqn:Hfield; [|done].
    assert (item !! k = Some v) as Hlookup.
    { rewrite (parse_fields_lookup_other _ _ _ _ Hk _ _ _ _ Hfields).
      apply lookup_insert_eq. }
    destruct (_parse_str bk) as [[s r]|e] eqn:Hstr.
    + rewrite (parse_field_keyed _ _ _ _ _ _ _ _ Hpresent Hstr Hkey Hv) in Hfield.
      destruct (_xor_str s key (Z.of_nat (length ipre))) as [s'|e] eqn:Hxor; [|done].
      injection Hfield as <- <-.
      apply xor_str_from_chars in Hxor as [Hlen Hchars].
      exists bj, item1, bk, s, r, s'. repeat split; try done.
    + rewrite parse_field_present in Hfield by done. unfold bind in Hfield.
      by rewrite Hstr in Hfield.
Qed.

Lemma xor_activation_witness :
  exists bj item1 bk s rest' s',
    decodes 3 named_schema 0 (skipn 6 named_container)
      [ <["name"%string := PyStr [0x14; 0x2B; 0x35; 0x4C]]> (<["id"%string := PyInt 0]> ∅) ]
      bj
    /\ parse_fields 3 (Z.of_nat 1) [("id"%string, ann_int, sized 4)] ∅ bj
       = Ok (item1, bk)
    /\ _parse_str bk = Ok (s, rest')
    /\ (<["name"%string := PyStr [6; 46; 74; 77]]> (<["id"%string := PyInt 1]> ∅)
          : gmap string value) !! "name"%string
       = Some (PyStr s')
    /\ length s' = length s
    /\ forall (p : nat) c,
        s !! p = Some c ->
        s' !! p
        = Some (Z.lxor c
                  (nth (Z.to_nat ((Z.of_nat p + Z.of_nat 1)
                                  mod Z.of_nat (length (str_of "PBG892FXX982ABC*"))))
                     (str_of "PBG892FXX982ABC*") 0)).
Proof.
  apply (proj2 (proj2 (proj2 (xor_activation "name" (keyed "PBG892FXX982ABC*"))))
           3 named_schema [("id"%string, ann_int, sized 4)] [] named_container 2
           [ <["name"%string := PyStr [0x14; 0x2B; 0x35; 0x4C]]> (<["id"%string := PyInt 0]> ∅);
             <["name"%string := PyStr [6; 46; 74; 77]]> (<["id"%string := PyInt 1]> ∅) ]
           [ <["name"%string := PyStr [0x14; 0x2B; 0x35; 0x4C]]> (<["id"%string := PyInt 0]> ∅) ]
           (<["name"%string := PyStr [6; 46; 74; 77]]> (<["id"%string := PyInt 1]> ∅))
           [] [] (str_of "PBG892FXX982ABC*")).
  - reflexivity.
  - apply (bool_decide_unpack _). vm_compute. exact I.
  - simpl. lia.
  - reflexivity.
  - lia.
  - vm_compute. reflexivity.
  - reflexivity.
Defined.

(** The two items of [named_container] carry the same bytes as name and
    decode to different texts: the first with the key from its first
    character on, the second from its second character on. *)
Example xor_offset_example :
  parse named_schema named_container
  = Ok (3, 2,
        [ <["name"%string := PyStr [0x14; 0x2B; 0x35; 0x4C]]> (<["id"%string := PyInt 0]> ∅);
          <["name"%string := PyStr [6; 46; 74; 77]]> (<["id"%string := PyInt 1]> ∅) ],
        []).
Proof. vm_compute. reflexivity. Qed.

(** ** Annotations the decoder does not know *)

(** What the last branch does for an annotation that has a [__name__]: a
    field that is not gated out and whose annotation is a class other than
    [int] and [str] makes the loop body raise the unknown-field-type error,
    whatever the source holds.  A record with such a field never decodes: the
    fields before it are decoded, and unless one of them raises first, the
    record aborts with that error; the field is neither skipped nor
    given a value. *)
Theorem unknown_annotation_rejected version i k tname f :
  _Field.version f <= version ->
  (forall buffer,
      parse_field version i k (ann_other tname) f buffer
      = Raise (UnknownFieldType k tname))
  /\ (forall pre post item buffer,
      parse_fields version i (pre ++ (k, ann_other tname, f) :: post) item buffer
      = match parse_fields version i pre item buffer with
        | Ok _ => Raise (UnknownFieldType k tname)
        | Raise e => Raise e
        end)
  /\ (forall pre post buffer,
      fails (parse_item version i (pre ++ (k, ann_other tname, f) :: post) buffer)).
Proof.
  intros Hpresent.
  assert (forall buffer, parse_field version i k (ann_other tname) f buffer
                         = Raise (UnknownFieldType k tname)) as Hfield.
  { intros buffer. by rewrite parse_field_present. }
  assert (forall pre post item buffer,
      parse_fields version i (pre ++ (k, ann_other tname, f) :: post) item buffer
      = match parse_fields version i pre item buffer with
        | Ok _ => Raise (UnknownFieldType k tname)
        | Raise e => Raise e
        end) as Hfields.
  { intros pre post item buffer. rewrite parse_fields_app.
    destruct (parse_fields version i pre item buffer) as [[item1 b1]|e]; [|done].
    cbn [parse_fields]. unfold bind. by rewrite Hfield. }
  split; [done|]. split; [done|].
  intros pre post buffer. unfold parse_item, bind. rewrite Hfields.
  destruct (parse_fields version i pre ∅ buffer) as [[item1 b1]|e]; by eexists.
Qed.

Lemma unknown_annotation_rejected_witness :
  parse_fields 1 0 priced_schema ∅ [x00; x00; x00; x00; x01; x02; x03; x04]
  = Raise (UnknownFieldType "price" "float").
Proof.
  apply (proj1 (proj2 (unknown_annotation_rejected 1 0 "price" "float" (sized 4)
                         ltac:(simpl; lia)))
           [("id"%string, ann_int, sized 4)] [] ∅
           [x00; x00; x00; x00; x01; x02; x03; x04]).
Defined.

(** C8 (the code at the failing input): for an annotation without a
    [__name__], such as [int | None] or a string annotation, the last branch
    does not reach its ValueError: building the message evaluates
    [t.__name__], which raises AttributeError.  A field with such an
    annotation that is not gated out makes the loop body raise that
    AttributeError whatever the source holds, and a record with such a field
    aborts with it unless an earlier field raised first. *)
Theorem unnamed_annotation_attribute_error version i k f :
  _Field.version f <= version ->
  (forall buffer,
      parse_field version i k ann_unnamed f buffer
      = Raise (AttributeError "__name__"))
  /\ (forall pre post item buffer,
      parse_fields version i (pre ++ (k, ann_unnamed, f) :: post) item buffer
      = match parse_fields version i pre item buffer with
        | Ok _ => Raise (AttributeError "__name__")
        | Raise e => Raise e
        end)
  /\ (forall pre post buffer tname,
      parse_fields version i pre ∅ buffer <> Raise (UnknownFieldType k tname) ->
      parse_item version i (pre ++ (k, ann_unnamed, f) :: post) buffer
      <> Raise (UnknownFieldType k tname)).
Proof.
  intros Hpresent.
  assert (forall buffer, parse_field version i k ann_unnamed f buffer
                         = Raise (AttributeError "__name__")) as Hfield.
  { intros buffer. by rewrite parse_field_present. }
  assert (forall pre post item buffer,
      parse_fields version i (pre ++ (k, ann_unnamed, f) :: post) item buffer
      = match parse_fields version i pre item buffer with
        | Ok _ => Raise (AttributeError "__name__")
        | Raise e => Raise e
        end) as Hfields.
  { intros pre post item buffer. rewrite parse_fields_app.
    destruct (parse_fields version i pre item buffer) as [[item1 b1]|e]; [|done].
    cbn [parse_fields]. unfold bind. by rewrite Hfield. }
  split; [done|]. split; [done|].
  intros pre post buffer tname Hpre. unfold parse_item, bind. rewrite Hfields.
  by destruct (parse_fields version i pre ∅ buffer) as [[item1 b1]|e].
Qed.

Lemma unnamed_annotation_attribute_error_witness :
  parse_fields 1 0 union_schema ∅ [x00; x00; x00; x00; x01; x02; x03; x04]
  = Raise (AttributeError "__name__").
Proof.
  apply (proj1 (proj2 (unnamed_annotation_attribute_error 1 0 "price" (sized 4)
                         ltac:(simpl; lia)))
           [("id"%string, ann_int, sized 4)] [] ∅
           [x00; x00; x00; x00; x01; x02; x03; x04]).
Defined.

(** The whole decode of a one-item container with that template. *)
Example union_schema_example :
  parse union_schema [x01; x00; x01; x00; x00; x00; x00; x00; x00; x00; x01; x02; x03; x04]
  = Raise (AttributeError "__name__").
Proof. vm_compute. reflexivity. Qed.

(** ** Opaque fields of dynamic size *)

(** C9: an opaque field ([None] annotation) with [size <= 0] that is not
    gated out is read by [_parse_str]: the two-byte length, that many bytes,
    and their UTF-8 decoding, although the field is then set to [None].  When
    those bytes are not well-formed UTF-8 the loop body raises the decoding
    error, and the whole [parse] aborts with it. *)
Theorem dynamic_opaque_decodes_utf8 version i k f :
  _Field.version f <= version ->
  _Field.size f <= 0 ->
  (forall buffer,
      parse_field version i k ann_None f buffer
      = match _parse_str buffer with
        | Ok (_, rest) => Ok (PyNone, rest)
        | Raise e => Raise e
        end)
  /\ (forall buffer,
      utf8_decode (str_bytes buffer) = None ->
      parse_field version i k ann_None f buffer = Raise UnicodeDecodeError)
  /\ (forall pre post container items bn item1 buffer,
      version = header_version container ->
      decodes version (pre ++ (k, ann_None, f) :: post) 0 (skipn 6 container)
        items bn ->
      i = Z.of_nat (length items) ->
      i < header_count container ->
      parse_fields version i pre ∅ bn = Ok (item1, buffer) ->
      utf8_decode (str_bytes buffer) = None ->
      parse (pre ++ (k, ann_None, f) :: post) container = Raise UnicodeDecodeError).
Proof.
  intros Hpresent Hsize.
  assert (forall buffer,
      parse_field version i k ann_None f buffer
      = match _parse_str buffer with
        | Ok (_, rest) => Ok (PyNone, rest)
        | Raise e => Raise e
        end) as Hfield.
  { intros buffer. rewrite parse_field_present by done.
    destruct (Z.ltb_spec 0 (_Field.size f)); [lia|].
    unfold bind, ret. by destruct (_parse_str buffer) as [[s rest]|e]. }
  assert (forall buffer,
      utf8_decode (str_bytes buffer) = None ->
      parse_field version i k ann_None f buffer = Raise UnicodeDecodeError) as Hbad.
  { intros buffer Hutf. by rewrite Hfield, parse_str_eq, Hutf. }
  split; [done|]. split; [done|].
  intros pre post container items bn item1 buffer -> Hdec -> Hlt Hpre Hutf.
  apply (parse_abort _ _ _ _ _ Hdec Hlt).
  unfold parse_item, bind. rewrite parse_fields_app, Hpre.
  cbn [parse_fields]. unfold bind. by rewrite (Hbad _ Hutf).
Qed.

Lemma dynamic_opaque_decodes_utf8_witness :
  parse opaque_schema [x01; x00; x01; x00; x00; x00;
                       x00; x00; x00; x00; x01; x00; xff]
  = Raise UnicodeDecodeError.
Proof.
  apply (proj2 (proj2 (dynamic_opaque_decodes_utf8 1 0 "_unknown" dynamic
                         ltac:(simpl; lia) ltac:(simpl; lia)))
           [("id"%string, ann_int, sized 4)] []
           [x01; x00; x01; x00; x00; x00; x00; x00; x00; x00; x01; x00; xff]
           [] [x00; x00; x00; x00; x01; x00; xff]
           (<["id"%string := PyInt 0]> ∅) [x01; x00; xff]).
  - reflexivity.
  - apply decodes_nil.
  - reflexivity.
  - vm_compute. reflexivity.
  - vm_compute. reflexivity.
  - reflexivity.
Defined.

(** ** A container older than the [id] field *)

Lemma parse_fields_gated version i tpl :
  forallb (gated version) tpl = true ->
  forall item b,
    parse_fields version i tpl item b = Ok (blank_item version tpl item, b).
Proof.
  induction tpl as [|[[k t] f] tpl IH]; intros Hgated item b; [done|].
  cbn [forallb] in Hgated. apply andb_prop in Hgated as [Hhd Htl].
  unfold gated in Hhd. cbn [snd] in Hhd.
  cbn [parse_fields blank_item]. unfold bind, parse_field, blank.
  rewrite Hhd. by apply IH.
Qed.

Lemma gated_id_is_None version i tpl t f item b item' b' :
  NoDup (names tpl) ->
  ("id"%string, t, f) ∈ tpl ->
  version < _Field.version f ->
  parse_fields version i tpl item b = Ok (item', b') ->
  item' !! "id"%string = Some PyNone.
Proof.
  intros Hnodup Hin Hgate Hfields.
  destruct (parse_fields_lookup _ _ _ _ _ _ _ _ _ _ Hnodup Hin Hfields)
    as (bk & v & bk' & Hfield & Hlookup).
  rewrite parse_field_gated in Hfield by done. by injection Hfield as <- _.
Qed.

(** C10: when the version of the container is below the [version] of the
    [id] field and the header announces at least one item, [id] is gated out
    and set to [None], the check [i != item.id] of the first item cannot
    pass, and [parse] never returns: it raises the offset-mismatch error for
    index 0 and [None], unless a field of the first item raised before the
    check.  With the default template at version 0 every field is gated out,
    nothing can raise before the check, and the error is always the offset
    mismatch. *)
Theorem gated_identity_never_decodes buffer :
  1 <= header_count buffer ->
  (forall tpl t f,
      NoDup (names tpl) ->
      ("id"%string, t, f) ∈ tpl ->
      header_version buffer < _Field.version f ->
      (forall i b item b',
          parse_fields (header_version buffer) i tpl ∅ b = Ok (item, b') ->
          item !! "id"%string = Some PyNone)
      /\ parse tpl buffer
         = match parse_fields (header_version buffer) 0 tpl ∅ (skipn 6 buffer) with
           | Ok _ => Raise (OffsetMismatch 0 PyNone (header_version buffer))
           | Raise e => Raise e
           end
      /\ fails (parse tpl buffer))
  /\ (header_version buffer = 0 ->
      parse Item buffer = Raise (OffsetMismatch 0 PyNone 0)).
Proof.
  intros Hcount.
  assert (forall tpl t f,
      NoDup (names tpl) ->
      ("id"%string, t, f) ∈ tpl ->
      header_version buffer < _Field.version f ->
      parse tpl buffer
      = match parse_fields (header_version buffer) 0 tpl ∅ (skipn 6 buffer) with
        | Ok _ => Raise (OffsetMismatch 0 PyNone (header_version buffer))
        | Raise e => Raise e
        end) as Hparse.
  { intros tpl t f Hnodup Hin Hgate.
    destruct (parse_fields (header_version buffer) 0 tpl ∅ (skipn 6 buffer))
      as [[item b1]|e] eqn:Hfields.
    - apply (parse_abort tpl buffer [] (skipn 6 buffer)); [constructor | simpl; lia |].
      change (Z.of_nat (length [])) with 0.
      apply (parse_item_mismatch _ _ _ _ _ _ _ Hfields); [|done].
      by apply (gated_id_is_None _ _ _ _ _ _ _ _ _ Hnodup Hin Hgate Hfields).
    - apply (parse_abort tpl buffer [] (skipn 6 buffer)); [constructor | simpl; lia |].
      change (Z.of_nat (length [])) with 0.
      unfold parse_item, bind. by rewrite Hfields. }
  split.
  - intros tpl t f Hnodup Hin Hgate. split; [|split].
    + intros i b item b'. by apply gated_id_is_None with t f.
    + by apply Hparse with t f.
    + rewrite (Hparse tpl t f) by done.
      destruct (parse_fields _ _ _ _ _) as [[item b1]|e]; by eexists.
  - intros Hversion.
    rewrite (Hparse Item ann_int (sized 4)).
    + rewrite Hversion. by rewrite parse_fields_gated.
    + apply (bool_decide_unpack _). vm_compute. exact I.
    + apply list_elem_of_here.
    + rewrite Hversion. simpl. lia.
Qed.

Lemma gated_identity_never_decodes_witness :
  parse Item [x00; x00; x03; x00; x00; x00; x07; x07] = Raise (OffsetMismatch 0 PyNone 0).
Proof.
  apply (proj2 (gated_identity_never_decodes
                  [x00; x00; x03; x00; x00; x00; x07; x07] ltac:(vm_compute; discriminate))).
  reflexivity.
Defined.

(** * Further properties of the decoder *)

(** ** Reading only moves forward *)

Lemma forward_ret {A} (a : A) : forward (ret a).
Proof.
  intros b a' r [= <- <-]. exists []. split; [done|]. by intros _ tail.
Qed.

Lemma forward_raise {A} e : forward (@raise A e).
Proof. by intros b a r. Qed.

Lemma forward_lift {A} (x : result A) : forward (lift x).
Proof.
  intros b a r. unfold lift. destruct x as [a'|e]; [|done].
  intros [= <- <-]. exists []. split; [done|]. by intros _ tail.
Qed.

Lemma forward_read_bytes size : forward (read_bytes size).
Proof.
  intros b a r. unfold read_bytes, read.
  destruct (Z.ltb_spec size 0) as [Hneg|Hpos].
  - intros [= <- <-]. exists b. split; [by rewrite app_nil_r | done].
  - intros [= <- <-]. exists (firstn (Z.to_nat size) b).
    split; [by rewrite firstn_skipn|]. intros Hleft tail.
    assert (Z.to_nat size < length b)%nat as Hlen.
    { destruct (Nat.lt_ge_cases (Z.to_nat size) (length b)) as [|Hge]; [done|].
      by rewrite skipn_all2 in Hleft. }
    assert (length (firstn (Z.to_nat size) b) = Z.to_nat size) as Hused
      by (rewrite length_firstn; lia).
    f_equal. f_equal.
    + rewrite firstn_app, Hused, Nat.sub_diag, firstn_O, app_nil_r.
      apply firstn_all2. lia.
    + rewrite skipn_app, Hused, Nat.sub_diag, skipn_O.
      rewrite skipn_all2 by lia. done.
Qed.

Lemma forward_bind {A B} (m : M A) (k : A -> M B) :
  forward m -> (forall a, forward (k a)) -> forward (bind m k).
Proof.
  intros Hm Hk b c r. unfold bind.
  destruct (m b) as [[a b1]|e] eqn:Hmb; [|done]. intros Hkb.
  destruct (Hm _ _ _ Hmb) as (u1 & -> & Hm').
  destruct (Hk a _ _ _ Hkb) as (u2 & -> & Hk').
  exists (u1 ++ u2). split; [by rewrite app_assoc|].
  intros Hleft tail.
  rewrite <- app_assoc, Hm'; [by apply Hk'|].
  intros Hnil. apply app_eq_nil in Hnil as [_ ?]. done.
Qed.

Create HintDb forward.
#[local] Hint Resolve forward_ret forward_raise forward_lift forward_read_bytes
  forward_bind : forward.

Lemma forward_parse_int size : forward (_parse_int size).
Proof. unfold _parse_int. auto with forward. Qed.

Lemma forward_parse_str : forward _parse_str.
Proof.
  unfold _parse_str. pose proof forward_parse_int.
  apply forward_bind; [done|]. intros len.
  apply forward_bind; [auto with forward|]. intros bs.
  destruct (utf8_decode bs); auto with forward.
Qed.

#[local] Hint Resolve forward_parse_int forward_parse_str : forward.

Lemma forward_parse_field version i k t f : forward (parse_field version i k t f).
Proof.
  unfold parse_field. destruct (version <? _Field.version f); [auto with forward|].
  destruct t; auto with forward.
  - apply forward_bind; [auto with forward|]. intros s.
    destruct (_Field.xor_key f); [destruct (3 <=? version)|]; auto with forward.
  - destruct (0 <? _Field.size f); auto with forward.
Qed.

Lemma forward_parse_fields version i tpl :
  forall item, forward (parse_fields version i tpl item).
Proof.
  induction tpl as [|[[k t] f] tpl IH]; intros item; cbn [parse_fields].
  - auto with forward.
  - apply forward_bind; [apply forward_parse_field | auto].
Qed.

Lemma forward_check_id version i item : forward (check_id version i item).
Proof.
  unfold check_id. destruct (item !! "id"%string) as [[| n |s]|];
    auto with forward.
  destruct (n =? i); auto with forward.
Qed.

Lemma forward_parse_item version i tpl : forward (parse_item version i tpl).
Proof.
  unfold parse_item. apply forward_bind; [apply forward_parse_fields|].
  intros item. apply forward_bind; [apply forward_check_id | auto with forward].
Qed.

Lemma forward_parse_items version tpl n :
  forall i items, forward (parse_items version tpl n i items).
Proof.
  induction n as [|n IH]; intros i items; cbn [parse_items].
  - auto with forward.
  - apply forward_bind; [apply forward_parse_item | auto].
Qed.

Lemma forward_parse tpl : forward (parse tpl).
Proof.
  unfold parse. apply forward_bind; [auto with forward|]. intros version.
  apply forward_bind; [auto with forward|]. intros item_count.
  apply forward_bind; [apply forward_parse_items | auto with forward].
Qed.

(** X1: If decoding leaves bytes unread, the container depends on the consumed
    bytes alone: the header and the items are the same whatever follows
    them, also when nothing does. *)
Theorem parse_prefix_determined tpl buffer version count items rest :
  parse tpl buffer = Ok (version, count, items, rest) ->
  exists used,
    buffer = used ++ rest
    /\ (rest <> [] ->
        (6 <= length used)%nat
        /\ forall tail, parse tpl (used ++ tail) = Ok (version, count, items, tail)).
Proof.
  intros Hparse.
  destruct (forward_parse tpl _ _ _ Hparse) as (used & -> & Hused).
  exists used. split; [done|]. intros Hleft. split; [|by apply Hused].
  rewrite parse_eq in Hparse.
  destruct (parse_items _ _ _ _ _ _) as [[items' rest']|e] eqn:Hitems; [|done].
  injection Hparse as _ _ _ ->.
  destruct (forward_parse_items _ _ _ _ _ _ _ _ Hitems) as (u & Hu & _).
  destruct (Nat.le_gt_cases 6 (length used)) as [|Hshort]; [done|].
  assert (length (skipn 6 (used ++ rest)) = length (u ++ rest)) as Hlen
    by by rewrite Hu.
  rewrite length_skipn, !length_app in Hlen.
  destruct rest; [done|]. cbn [length] in Hlen. lia.
Qed.

Lemma parse_prefix_determined_witness :
  exists used,
    [x01; x00; x01; x00; x00; x00; x00; x00; x00; x00; x05; xff; xfe]
    = used ++ [xff; xfe]
    /\ ([xff; xfe] <> [] ->
        (6 <= length used)%nat
        /\ forall tail,
            parse reduced_schema (used ++ tail)
            = Ok (1, 1, [ <["flag"%string := PyInt 5]> (<["id"%string := PyInt 0]> ∅) ],
                  tail)).
Proof.
  apply (parse_prefix_determined reduced_schema
           [x01; x00; x01; x00; x00; x00; x00; x00; x00; x00; x05; xff; xfe]).
  vm_compute. reflexivity.
Defined.

(** ** The bytes of a record of fixed size *)

Lemma parse_field_width version i k t f w b :
  field_width version (k, t, f) = Some w ->
  0 <= w
  /\ exists v, parse_field version i k t f b = Ok (v, skipn (Z.to_nat w) b).
Proof.
  unfold field_width, parse_field.
  destruct (version <? _Field.version f).
  { intros [= <-]. split; [lia|]. by exists PyNone. }
  destruct t; try done.
  - destruct (Z.leb_spec 0 (_Field.size f)) as [Hsize|]; [|done]. intros [= <-].
    split; [done|]. unfold bind. rewrite parse_int_eq. unfold read.
    destruct (Z.ltb_spec (_Field.size f) 0); [lia|]. by eexists.
  - destruct (Z.ltb_spec 0 (_Field.size f)) as [Hsize|]; [|done]. intros [= <-].
    split; [lia|]. unfold bind. rewrite parse_int_eq. unfold read.
    destruct (Z.ltb_spec (_Field.size f) 0); [lia|]. by eexists.
Qed.

Lemma parse_fields_width version i tpl :
  forall w item b,
    record_width version tpl = Some w ->
    0 <= w
    /\ exists item', parse_fields version i tpl item b
                     = Ok (item', skipn (Z.to_nat w) b).
Proof.
  induction tpl as [|[[k t] f] tpl IH]; intros w item b; cbn [record_width].
  - intros [= <-]. split; [done|]. by exists item.
  - destruct (field_width version (k, t, f)) as [w1|] eqn:Hw1; [|done].
    destruct (record_width version tpl) as [w2|] eqn:Hw2; [|done].
    intros [= <-].
    destruct (parse_field_width version i k t f w1 b Hw1) as (Hpos1 & v & Hv).
    destruct (IH w2 (<[k := v]> item) (skipn (Z.to_nat w1) b) eq_refl)
      as (Hpos2 & item' & Hitem').
    split; [lia|]. exists item'. cbn [parse_fields]. unfold bind.
    rewrite Hv, Hitem', skipn_skipn. do 3 f_equal. lia.
Qed.

Lemma decodes_width version tpl w i b items b' :
  record_width version tpl = Some w ->
  decodes version tpl i b items b' ->
  b' = skipn (Z.to_nat (Z.of_nat (length items) * w)) b.
Proof.
  intros Hw Hdec. induction Hdec as [|i b it b1 items b' Hit Hdec IH]; [done|].
  apply parse_item_ok in Hit as [Hfields _].
  destruct (parse_fields_width version i tpl w ∅ b Hw) as (Hpos & item' & Hitem').
  rewrite Hfields in Hitem'. injection Hitem' as _ ->.
  rewrite IH, skipn_skipn. f_equal. cbn [length]. lia.
Qed.

(** X2: With a template whose fields that are not gated out are integers of
    [size >= 0] bytes and opaque fields of [size > 0] bytes, every record
    takes the same number [w] of bytes: the fields of a record always decode,
    leaving the source [w] bytes further, and a container that decodes leaves
    what follows byte [6 + count * w]. *)
Theorem fixed_width_accounting version tpl w :
  record_width version tpl = Some w ->
  0 <= w
  /\ (forall i item b,
        exists item', parse_fields version i tpl item b
                      = Ok (item', skipn (Z.to_nat w) b))
  /\ (forall buffer count items rest,
        parse tpl buffer = Ok (version, count, items, rest) ->
        rest = skipn (Z.to_nat (6 + count * w)) buffer).
Proof.
  intros Hw. split; [|split].
  - by destruct (parse_fields_width version 0 tpl w ∅ [] Hw).
  - intros i item b. by destruct (parse_fields_width version i tpl w item b Hw).
  - intros buffer count items rest Hparse.
    assert (0 <= w) as Hpos
      by by destruct (parse_fields_width version 0 tpl w ∅ [] Hw).
    rewrite parse_eq in Hparse.
    destruct (parse_items _ _ _ _ _ _) as [[items' rest']|e] eqn:Hitems; [|done].
    injection Hparse as <- <- <- <-.
    apply parse_items_decodes in Hitems as (its & -> & Hlen & Hdec).
    rewrite (decodes_width _ _ _ _ _ _ _ Hw Hdec), skipn_skipn. f_equal.
    pose proof (from_bytes_little_range (firstn 4 (skipn 2 buffer))) as Hcount.
    fold (header_count buffer) in Hcount. cbn [app]. nia.
Qed.

Lemma fixed_width_accounting_witness :
  0 <= 5
  /\ (forall i item b,
        exists item', parse_fields 1 i reduced_schema item b
                      = Ok (item', skipn (Z.to_nat 5) b))
  /\ (forall buffer count items rest,
        parse reduced_schema buffer = Ok (1, count, items, rest) ->
        rest = skipn (Z.to_nat (6 + count * 5)) buffer).
Proof.
  apply (fixed_width_accounting 1 reduced_schema 5). reflexivity.
Defined.

(** ** The shape of a decoded item *)

Lemma xor_str_from_is_str key offset str :
  forall i t, _xor_str_from i str key offset = Ok t -> is_str t = true.
Proof.
  induction str as [|c rest IH]; intros i t; cbn [_xor_str_from].
  - by intros [= <-].
  - destruct (Z.of_nat (length key) =? 0); [done|].
    destruct (is_code_point _) eqn:Hx; [|done].
    destruct (_xor_str_from (i + 1) rest key offset) as [r|e] eqn:Hr; [|done].
    intros [= <-]. cbn [is_str forallb]. rewrite Hx. by apply (IH (i + 1)).
Qed.

Lemma parse_field_has_type version i k t f b v b' :
  parse_field version i k t f b = Ok (v, b') ->
  has_type version t f v = true.
Proof.
  unfold parse_field, has_type.
  destruct (version <? _Field.version f); [by intros [= <- _]|].
  destruct t; unfold bind.
  - rewrite parse_int_eq. intros [= <- _]. cbn [negb andb].
    pose proof (from_bytes_little_range (fst (read b (_Field.size f)))) as Hn.
    apply andb_true_intro. split; [lia|].
    unfold read in *. destruct (Z.ltb_spec (_Field.size f) 0); [done|].
    cbn [fst orb] in *. apply Z.ltb_lt.
    eapply Z.lt_le_trans; [apply Hn|].
    apply Z.pow_le_mono_r; [lia|]. rewrite length_firstn. lia.
  - destruct (_parse_str b) as [[s r]|e] eqn:Hs; [|done].
    apply parse_str_is_str in Hs.
    destruct (_Field.xor_key f) as [key|]; [destruct (3 <=? version)|];
      try (by intros [= <- _]).
    unfold lift. destruct (_xor_str s key i) as [s'|e] eqn:Hx; [|done].
    intros [= <- _]. cbn [negb andb]. by apply xor_str_from_is_str in Hx.
  - destruct (0 <? _Field.size f).
    + rewrite parse_int_eq. by intros [= <- _].
    + destruct (_parse_str b) as [[s r]|e]; [|done]. by intros [= <- _].
  - done.
  - done.
Qed.

Lemma parse_fields_dom version i tpl :
  forall item b item' b',
    parse_fields version i tpl item b = Ok (item', b') ->
    dom item' = dom item ∪ list_to_set (names tpl).
Proof.
  induction tpl as [|[[k t] f] tpl IH]; intros item b item' b'; cbn [parse_fields].
  - intros [= <- _]. cbn. by rewrite union_empty_r_L.
  - unfold bind. destruct (parse_field version i k t f b) as [[v b1]|e]; [|done].
    intros Hrest. rewrite (IH _ _ _ _ Hrest), dom_insert_L. cbn [names map fst].
    rewrite list_to_set_cons. fold (names tpl).
    by rewrite (comm_L (∪) {[k]} (dom item)), (assoc_L (∪)).
Qed.

Lemma decodes_elem version tpl i b items b' item :
  decodes version tpl i b items b' ->
  item ∈ items ->
  exists j bj bj', parse_fields version j tpl ∅ bj = Ok (item, bj').
Proof.
  intros Hdec Hin. apply list_elem_of_lookup in Hin as [j Hj].
  destruct (decodes_lookup _ _ _ _ _ _ _ _ Hdec Hj) as (bj & bj' & Hitem).
  apply parse_item_ok in Hitem as [Hfields _]. by eexists _, _, _.
Qed.

Lemma decoded_field version tpl buffer count items rest item k t f :
  parse tpl buffer = Ok (version, count, items, rest) ->
  NoDup (names tpl) ->
  item ∈ items ->
  (k, t, f) ∈ tpl ->
  exists v, item !! k = Some v /\ has_type version t f v = true.
Proof.
  intros Hparse Hnodup Hitem Hin.
  apply parse_ok_decodes in Hparse as Hdec.
  destruct (decodes_elem _ _ _ _ _ _ _ Hdec Hitem) as (j & bj & bj' & Hfields).
  destruct (parse_fields_lookup _ _ _ _ _ _ _ _ _ _ Hnodup Hin Hfields)
    as (bk & v & bk' & Hfield & Hlookup).
  exists v. split; [done|]. by apply parse_field_has_type in Hfield.
Qed.

(** X3: Every item of a decoded container has exactly the attributes of the
    template, and each holds a value of its field: [None] when the field is
    gated out or opaque, otherwise a natural number below [256 ^ size] for
    an [int] field and a [str] for a [str] field. *)
Theorem decoded_item_shape tpl buffer version count items rest item :
  parse tpl buffer = Ok (version, count, items, rest) ->
  NoDup (names tpl) ->
  item ∈ items ->
  dom item = list_to_set (names tpl)
  /\ forall k t f,
      (k, t, f) ∈ tpl ->
      exists v, item !! k = Some v /\ has_type version t f v = true.
Proof.
  intros Hparse Hnodup Hitem. split.
  - apply parse_ok_decodes in Hparse as Hdec.
    destruct (decodes_elem _ _ _ _ _ _ _ Hdec Hitem) as (j & bj & bj' & Hfields).
    by rewrite (parse_fields_dom _ _ _ _ _ _ _ Hfields), dom_empty_L, union_empty_l_L.
  - intros k t f Hin. by apply (decoded_field _ _ _ _ _ _ _ _ _ _ Hparse).
Qed.

Lemma decoded_item_shape_witness :
  let item : gmap string value :=
    <["flag"%string := PyInt 5]> (<["id"%string := PyInt 0]> ∅) in
  dom item = list_to_set (names reduced_schema)
  /\ forall k t f,
      (k, t, f) ∈ reduced_schema ->
      exists v, item !! k = Some v /\ has_type 1 t f v = true.
Proof.
  apply (decoded_item_shape reduced_schema
           [x01; x00; x01; x00; x00; x00; x00; x00; x00; x00; x05] 1 1
           [ <["flag"%string := PyInt 5]> (<["id"%string := PyInt 0]> ∅) ] []).
  - vm_compute. reflexivity.
  - apply (bool_decide_unpack _). vm_compute. exact I.
  - apply list_elem_of_here.
Defined.

Lemma filter_names (p : string -> bool) (q : string * annotation * _Field.t -> bool)
    (tpl : template) :
  (forall e, e ∈ tpl -> p (fst (fst e)) = q e) ->
  List.filter p (names tpl) = names (List.filter q tpl).
Proof.
  induction tpl as [|e tpl IH]; intros Hpq; [done|].
  cbn [names map List.filter]. rewrite (Hpq e) by apply list_elem_of_here.
  fold (names tpl). rewrite IH by (intros e' He'; apply Hpq; by apply list_elem_of_further).
  by destruct (q e).
Qed.

(** X4: The columns the script takes from the first item are those of every
    item: for each item of a decoded container, the attributes that are not
    [None] are the fields of the template that are neither gated out nor
    opaque, in template order.  No later item has a value in a column that
    was dropped, or [None] in a column that was kept. *)
Theorem valid_keys_uniform tpl buffer version count items rest item :
  parse tpl buffer = Ok (version, count, items, rest) ->
  NoDup (names tpl) ->
  item ∈ items ->
  valid_keys tpl item = names (List.filter (visible version) tpl).
Proof.
  intros Hparse Hnodup Hitem. unfold valid_keys. apply filter_names.
  intros [[k t] f] Hin. cbn [fst].
  destruct (decoded_field _ _ _ _ _ _ _ _ _ _ Hparse Hnodup Hitem Hin)
    as (v & -> & Htype).
  unfold has_type, visible in *.
  destruct (version <? _Field.version f), v, t; cbn in *; try done;
    apply andb_prop in Htype as [Htype _]; done.
Qed.

Lemma valid_keys_uniform_witness :
  valid_keys opaque_schema (<["_unknown"%string := PyNone]> (<["id"%string := PyInt 0]> ∅))
  = names (List.filter (visible 1) opaque_schema).
Proof.
  apply (valid_keys_uniform opaque_schema
           [x01; x00; x01; x00; x00; x00; x00; x00; x00; x00; x01; x00; x41] 1 1
           [ <["_unknown"%string := PyNone]> (<["id"%string := PyInt 0]> ∅) ] []).
  - vm_compute. reflexivity.
  - apply (bool_decide_unpack _). vm_compute. exact I.
  - apply list_elem_of_here.
Defined.

(** ** What a template needs to decode any item *)

(** X5: A container with at least one item decodes only if the [id] of the
    template is an [int] field that is not gated out, and then the number of
    items is at most [256 ^ size] when the field has [size >= 0]: the ids
    0, 1, ... must all fit. *)
Theorem decoding_needs_int_id tpl buffer version count items rest t f :
  parse tpl buffer = Ok (version, count, items, rest) ->
  1 <= count ->
  NoDup (names tpl) ->
  ("id"%string, t, f) ∈ tpl ->
  t = ann_int
  /\ _Field.version f <= version
  /\ (0 <= _Field.size f -> count <= 256 ^ _Field.size f).
Proof.
  intros Hparse Hcount Hnodup Hin.
  assert (Z.of_nat (length items) = count /\ decodes version tpl 0 (skipn 6 buffer) items rest)
    as [Hlen Hdec].
  { rewrite parse_eq in Hparse.
    destruct (parse_items _ _ _ _ _ _) as [[items' rest']|e] eqn:Hitems; [|done].
    injection Hparse as <- <- <- <-.
    apply parse_items_decodes in Hitems as (its & -> & Hlen & Hdec).
    split; [|done]. cbn [app]. rewrite Hlen.
    pose proof (from_bytes_little_range (firstn 4 (skipn 2 buffer))).
    unfold header_count. lia. }
  assert (exists item, items !! (length items - 1)%nat = Some item) as [item Hlast].
  { apply lookup_lt_is_Some. lia. }
  destruct (decodes_lookup _ _ _ _ _ _ _ _ Hdec Hlast) as (bj & bj' & Hitem).
  apply parse_item_ok in Hitem as [Hfields Hid].
  destruct (parse_fields_lookup _ _ _ _ _ _ _ _ _ _ Hnodup Hin Hfields)
    as (bk & v & bk' & Hfield & Hlookup).
  rewrite Hid in Hlookup. injection Hlookup as <-.
  apply parse_field_has_type in Hfield. unfold has_type in Hfield.
  apply andb_prop in Hfield as [Hfield Hbound].
  apply andb_prop in Hfield as [Hfield _].
  apply andb_prop in Hfield as [Hgate Hint].
  split; [by destruct t|]. split; [lia|].
  intros Hsize. apply orb_prop in Hbound as [Hneg|Hbound]; [lia|].
  apply Z.ltb_lt in Hbound. lia.
Qed.

Lemma decoding_needs_int_id_witness :
  ann_int = ann_int
  /\ _Field.version (sized 4) <= 1
  /\ (0 <= _Field.size (sized 4) -> 1 <= 256 ^ _Field.size (sized 4)).
Proof.
  apply (decoding_needs_int_id reduced_schema
           [x01; x00; x01; x00; x00; x00; x00; x00; x00; x00; x05] 1 1
           [ <["flag"%string := PyInt 5]> (<["id"%string := PyInt 0]> ∅) ] []).
  - vm_compute. reflexivity.
  - lia.
  - apply (bool_decide_unpack _). vm_compute. exact I.
  - apply list_elem_of_here.
Defined.

Lemma parse_first_item tpl buffer e :
  1 <= header_count buffer ->
  parse_item (header_version buffer) 0 tpl (skipn 6 buffer) = Raise e ->
  parse tpl buffer = Raise e.
Proof.
  intros Hcount Hfail.
  by apply (parse_abort tpl buffer [] (skipn 6 buffer)); [constructor | simpl; lia |].
Qed.

(** X6: With a template that has no [id] field, a container that announces at
    least one item never decodes: once the fields of the first item are
    read, [item.id] raises AttributeError. *)
Theorem template_without_id tpl buffer :
  "id"%string ∉ names tpl ->
  1 <= header_count buffer ->
  parse tpl buffer
  = match parse_fields (header_version buffer) 0 tpl ∅ (skipn 6 buffer) with
    | Ok _ => Raise (AttributeError "id")
    | Raise e => Raise e
    end.
Proof.
  intros Hid Hcount.
  destruct (parse_fields _ _ _ _ _) as [[item b1]|e] eqn:Hfields;
    apply parse_first_item; try done; unfold parse_item, bind; rewrite Hfields;
    [|done].
  unfold check_id.
  by rewrite (parse_fields_lookup_other _ _ _ _ Hid _ _ _ _ Hfields), lookup_empty.
Qed.

Lemma template_without_id_witness :
  parse [("flag"%string, ann_int, sized 1)] [x01; x00; x01; x00; x00; x00; x05]
  = Raise (AttributeError "id").
Proof.
  apply (template_without_id [("flag"%string, ann_int, sized 1)]
           [x01; x00; x01; x00; x00; x00; x05]).
  - apply (bool_decide_unpack _). vm_compute. exact I.
  - vm_compute. discriminate.
Defined.

(** ** Empty containers and fields of unbounded size *)

(** X7: A header that announces no item decodes to the empty list of items
    whatever the template, without reading further; a source of at most two
    bytes, the empty one included, is such a header. *)
Theorem empty_container tpl buffer :
  ((length buffer <= 2)%nat -> header_count buffer = 0)
  /\ (header_count buffer = 0 ->
      parse tpl buffer = Ok (header_version buffer, 0, [], skipn 6 buffer)).
Proof.
  split.
  - intros Hlen. unfold header_count. by rewrite skipn_all2.
  - intros Hcount. by rewrite parse_eq, Hcount.
Qed.

Lemma empty_container_witness :
  parse Item [] = Ok (0, 0, [], []).
Proof.
  apply (proj2 (empty_container Item [])). reflexivity.
Defined.

(** X8: An [int] field that is not gated out and keeps the default [size=-1]
    takes every byte that is left as one little-endian number; the fields
    after it (of annotations [parse] decodes and sizes the stream reads)
    find the source exhausted and decode to zero and empty values. *)
Theorem unsized_int_takes_all version i k f tpl item buffer :
  _Field.version f <= version ->
  _Field.size f = -1 ->
  forallb (implemented version) tpl = true ->
  forallb (sizes_readable version) tpl = true ->
  parse_fields version i ((k, ann_int, f) :: tpl) item buffer
  = Ok (blank_item version tpl (<[k := PyInt (from_bytes_little buffer)]> item), []).
Proof.
  intros Hpresent Hsize Himpl Hsizes. cbn [parse_fields]. unfold bind.
  rewrite parse_field_present by done. unfold bind.
  rewrite parse_int_eq, Hsize. cbn [read Z.ltb Z.compare fst snd ret].
  by apply parse_fields_nil.
Qed.

Lemma unsized_int_takes_all_witness :
  parse_fields 1 0 [("id"%string, ann_int, dynamic); ("flag"%string, ann_int, sized 1)]
    ∅ [x02; x01; x00; x07]
  = Ok (<["flag"%string := PyInt 0]> (<["id"%string := PyInt 0x07000102]> ∅), []).
Proof.
  apply (unsized_int_takes_all 1 0 "id" dynamic [("flag"%string, ann_int, sized 1)]
           ∅ [x02; x01; x00; x07]).
  - simpl. lia.
  - reflexivity.
  - reflexivity.
  - reflexivity.
Defined.

(** ** Little-endian integers *)

Lemma byte_val_inj b1 b2 : byte_val b1 = byte_val b2 -> b1 = b2.
Proof.
  unfold byte_val. intros Heq. apply N2Z.inj in Heq.
  pose proof (Byte.of_to_N b1) as H1. pose proof (Byte.of_to_N b2) as H2.
  rewrite Heq in H1. congruence.
Qed.

Lemma byte_val_onto n : 0 <= n < 256 -> exists b, byte_val b = n.
Proof.
  intros Hn. destruct (Byte.of_N (Z.to_N n)) as [b|] eqn:Hb.
  - exists b. unfold byte_val. apply Byte.to_of_N in Hb. rewrite Hb. lia.
  - apply Byte.of_N_None_iff in Hb. lia.
Qed.

Lemma from_bytes_little_inj bs1 :
  forall bs2,
    length bs1 = length bs2 ->
    from_bytes_little bs1 = from_bytes_little bs2 ->
    bs1 = bs2.
Proof.
  induction bs1 as [|b1 bs1 IH]; intros [|b2 bs2] Hlen Heq; try done.
  cbn [from_bytes_little] in Heq.
  pose proof (byte_val_range b1). pose proof (byte_val_range b2).
  assert (byte_val b1 = byte_val b2 /\ from_bytes_little bs1 = from_bytes_little bs2)
    as [Hb Hrest] by lia.
  f_equal; [by apply byte_val_inj | apply IH; [by injection Hlen | done]].
Qed.

Lemma from_bytes_little_onto (size : nat) :
  forall n, 0 <= n < 256 ^ Z.of_nat size ->
    exists bs, length bs = size /\ from_bytes_little bs = n.
Proof.
  induction size as [|size IH]; intros n Hn.
  - exists []. split; [done|]. cbn in *. lia.
  - rewrite Nat2Z.inj_succ, Z.pow_succ_r in Hn by lia.
    destruct (byte_val_onto (n mod 256)) as [b Hb]; [apply Z.mod_pos_bound; lia|].
    destruct (IH (n / 256)) as (bs & Hlen & Hbs).
    { split; [apply Z.div_pos; lia | apply Z.div_lt_upper_bound; lia]. }
    exists (b :: bs). split; [by rewrite <- Hlen|].
    cbn [from_bytes_little]. rewrite Hb, Hbs.
    pose proof (Z.div_mod n 256). lia.
Qed.

(** X9: On a source that holds at least [size] bytes, [_parse_int size] takes
    exactly [size] bytes and returns a number below [256 ^ size]; two
    sources give the same number only if their first [size] bytes are the
    same, and every number below [256 ^ size] is read from some [size]
    bytes. *)
Theorem parse_int_bijective (size : nat) :
  (forall buffer,
      (size <= length buffer)%nat ->
      exists n,
        _parse_int (Z.of_nat size) buffer = Ok (n, skipn size buffer)
        /\ 0 <= n < 256 ^ Z.of_nat size)
  /\ (forall b1 b2 n r1 r2,
      (size <= length b1)%nat -> (size <= length b2)%nat ->
      _parse_int (Z.of_nat size) b1 = Ok (n, r1) ->
      _parse_int (Z.of_nat size) b2 = Ok (n, r2) ->
      firstn size b1 = firstn size b2)
  /\ (forall n,
      0 <= n < 256 ^ Z.of_nat size ->
      exists bs, length bs = size
                 /\ forall rest, _parse_int (Z.of_nat size) (bs ++ rest) = Ok (n, rest)).
Proof.
  assert (forall buffer,
      _parse_int (Z.of_nat size) buffer
      = Ok (from_bytes_little (firstn size buffer), skipn size buffer)) as Hint.
  { intros buffer. rewrite parse_int_eq. unfold read.
    destruct (Z.ltb_spec (Z.of_nat size) 0); [lia|]. by rewrite Nat2Z.id. }
  split; [|split].
  - intros buffer Hlen. eexists. split; [apply Hint|].
    pose proof (from_bytes_little_range (firstn size buffer)) as Hn.
    rewrite length_firstn in Hn. by replace (size `min` length buffer)%nat with size in Hn by lia.
  - intros b1 b2 n r1 r2 Hlen1 Hlen2. rewrite !Hint. intros [= <- _] [= Heq _].
    apply from_bytes_little_inj; [rewrite !length_firstn; lia | done].
  - intros n Hn. destruct (from_bytes_little_onto size n Hn) as (bs & Hlen & Hbs).
    exists bs. split; [done|]. intros rest. rewrite Hint.
    rewrite firstn_app, skipn_app, Hlen, Nat.sub_diag, firstn_O, skipn_O, app_nil_r.
    rewrite firstn_all2, skipn_all2 by lia. by rewrite Hbs.
Qed.

Lemma parse_int_bijective_witness :
  exists n,
    _parse_int (Z.of_nat 2) [x34; x12; xff] = Ok (n, skipn 2 [x34; x12; xff])
    /\ 0 <= n < 256 ^ Z.of_nat 2.
Proof.
  apply (proj1 (parse_int_bijective 2) [x34; x12; xff]). simpl. lia.
Defined.

(** ** Length-prefixed strings *)

Lemma utf8_decode_length_upto (n : nat) :
  forall bs s, (length bs <= n)%nat -> utf8_decode bs = Some s ->
    (length s <= length bs)%nat.
Proof.
  induction n as [|n IH]; intros bs s Hlen.
  - destruct bs; [|simpl in Hlen; lia]. by intros [= <-].
  - destruct bs as [|b0 r0]; [by intros [= <-]|].
    cbn [length] in Hlen. cbn [utf8_decode]. cbv zeta.
    destruct (byte_val b0 <? 128).
    { intros Hs; apply fmap_Some in Hs as (s' & Hs' & ->).
      cbn [length]. pose proof (IH r0 s' ltac:(lia) Hs'). lia. }
    destruct (byte_val b0 <? 194); [discriminate|].
    destruct (byte_val b0 <? 224).
    { destruct r0 as [|b1 r1]; [discriminate|]. cbn [length] in *.
      destruct (is_cont (byte_val b1)); [|discriminate].
      intros Hs; apply fmap_Some in Hs as (s' & Hs' & ->).
      cbn [length]. pose proof (IH r1 s' ltac:(lia) Hs'). lia. }
    destruct (byte_val b0 <? 240).
    { destruct r0 as [|b1 [|b2 r2]]; [discriminate|discriminate|].
      cbn [length] in *.
      match goal with |- (if ?c then _ else _) = _ -> _ => destruct c end;
        [|discriminate].
      intros Hs; apply fmap_Some in Hs as (s' & Hs' & ->).
      cbn [length]. pose proof (IH r2 s' ltac:(lia) Hs'). lia. }
    destruct (byte_val b0 <? 245); [|discriminate].
    destruct r0 as [|b1 [|b2 [|b3 r3]]]; try discriminate.
    cbn [length] in *.
    match goal with |- (if ?c then _ else _) = _ -> _ => destruct c end;
      [|discriminate].
    intros Hs; apply fmap_Some in Hs as (s' & Hs' & ->).
    cbn [length]. pose proof (IH r3 s' ltac:(lia) Hs'). lia.
Qed.

Lemma utf8_decode_ascii bs :
  forallb (fun b => byte_val b <? 0x80) bs = true ->
  utf8_decode bs = Some (map byte_val bs).
Proof.
  induction bs as [|b bs IH]; [done|]. cbn [forallb]. intros Hascii.
  apply andb_prop in Hascii as [Hb Hbs].
  cbn [utf8_decode map]. cbv zeta. rewrite Hb, (IH Hbs). done.
Qed.

(** X10: What [_parse_str] returns is a [str] of at most as many characters as
    the length prefix announces, fewer than 65536, and the source is left
    after the two bytes of the prefix and that many bytes.  When the bytes
    of the text are all ASCII (below 0x80) the read cannot fail and the
    characters are those bytes. *)
Theorem parse_str_accounting buffer :
  (forall s rest,
      _parse_str buffer = Ok (s, rest) ->
      is_str s = true
      /\ Z.of_nat (length s) <= str_length buffer < 65536
      /\ rest = skipn (2 + Z.to_nat (str_length buffer)) buffer)
  /\ (forallb (fun b => byte_val b <? 0x80) (str_bytes buffer) = true ->
      _parse_str buffer = Ok (map byte_val (str_bytes buffer), str_rest buffer)).
Proof.
  pose proof (from_bytes_little_range (firstn 2 buffer)) as Hlen.
  fold (str_length buffer) in Hlen.
  assert (length (firstn 2 buffer) <= 2)%nat as Hpre by (rewrite length_firstn; lia).
  assert (256 ^ Z.of_nat (length (firstn 2 buffer)) <= 256 ^ 2) as Hpow
    by (apply Z.pow_le_mono_r; lia).
  split.
  - intros s rest Hstr. split; [by apply parse_str_is_str in Hstr|].
    rewrite parse_str_eq in Hstr.
    destruct (utf8_decode (str_bytes buffer)) as [s'|] eqn:Hutf; [|done].
    injection Hstr as -> <-.
    apply (utf8_decode_length_upto (length (str_bytes buffer))) in Hutf; [|done].
    unfold str_bytes in Hutf. rewrite length_firstn in Hutf.
    split; [lia|]. unfold str_rest. rewrite skipn_skipn. f_equal. lia.
  - intros Hascii. by rewrite parse_str_eq, (utf8_decode_ascii _ Hascii).
Qed.

Lemma parse_str_accounting_witness :
  _parse_str [x04; x00; x44; x69; x72; x74; x09]
  = Ok (map byte_val (str_bytes [x04; x00; x44; x69; x72; x74; x09]),
        str_rest [x04; x00; x44; x69; x72; x74; x09]).
Proof.
  apply (proj2 (parse_str_accounting [x04; x00; x44; x69; x72; x74; x09])).
  reflexivity.
Defined.

(** X11: A length prefix that announces more bytes than the source holds is not
    an error: [_parse_str] decodes the bytes that are there and leaves the
    source empty. *)
Theorem parse_str_short_payload buffer :
  Z.of_nat (length (skipn 2 buffer)) <= str_length buffer ->
  _parse_str buffer
  = match utf8_decode (skipn 2 buffer) with
    | Some s => Ok (s, [])
    | None => Raise UnicodeDecodeError
    end.
Proof.
  intros Hshort. rewrite parse_str_eq. unfold str_bytes, str_rest.
  rewrite firstn_all2 by lia.
  by rewrite (skipn_all2 (n:=Z.to_nat (str_length buffer)) (skipn 2 buffer)) by lia.
Qed.

Lemma parse_str_short_payload_witness :
  _parse_str [x09; x00; x68; x69] = Ok ([0x68; 0x69], []).
Proof.
  apply (parse_str_short_payload [x09; x00; x68; x69]). vm_compute. discriminate.
Defined.

(** ** More on [_xor_str] *)

(** X12: When [_xor_str] returns, the result is a [str] of the same length as the
    text, and its character at every position [p] is the XOR of the
    character of the text with the character of the key at position
    [(p + offset) mod len(key)]. *)
Theorem xor_str_characters str key offset t :
  _xor_str str key offset = Ok t ->
  is_str t = true
  /\ length t = length str
  /\ forall (p : nat) c,
      str !! p = Some c ->
      t !! p
      = Some (Z.lxor c
                (nth (Z.to_nat ((Z.of_nat p + offset) mod Z.of_nat (length key)))
                   key 0)).
Proof.
  intros Hxor. split; [by apply xor_str_from_is_str in Hxor|].
  by apply xor_str_from_chars in Hxor.
Qed.

Lemma xor_str_characters_witness :
  is_str [0x14; 0x2B; 0x35; 0x4C] = true
  /\ length [0x14; 0x2B; 0x35; 0x4C] = length (str_of "Dirt")
  /\ forall (p : nat) c,
      str_of "Dirt" !! p = Some c ->
      [0x14; 0x2B; 0x35; 0x4C] !! p
      = Some (Z.lxor c
                (nth (Z.to_nat ((Z.of_nat p + 0)
                                mod Z.of_nat (length (str_of "PBG892FXX982ABC*"))))
                   (str_of "PBG892FXX982ABC*") 0)).
Proof.
  apply (xor_str_characters (str_of "Dirt") (str_of "PBG892FXX982ABC*") 0).
  reflexivity.
Defined.

(** X13: Only the offset modulo the length of the key matters: items whose
    indices differ by a multiple of [len(key)] are transformed with the same
    alignment of the key. *)
Theorem xor_str_offset_periodic str key offset n :
  _xor_str str key (offset + n * Z.of_nat (length key)) = _xor_str str key offset.
Proof.
  unfold _xor_str. generalize 0 as i.
  induction str as [|c rest IH]; intros i; [done|]. cbn [_xor_str_from].
  destruct (Z.eqb_spec (Z.of_nat (length key)) 0) as [|Hlen]; [done|].
  rewrite IH, Z.add_assoc, Z.mod_add by done. done.
Qed.

Lemma xor_str_from_app key offset s1 :
  forall i s2,
    _xor_str_from i (s1 ++ s2) key offset
    = match _xor_str_from i s1 key offset with
      | Ok t1 =>
        match _xor_str_from (i + Z.of_nat (length s1)) s2 key offset with
        | Ok t2 => Ok (t1 ++ t2)
        | Raise e => Raise e
        end
      | Raise e => Raise e
      end.
Proof.
  induction s1 as [|c rest IH]; intros i s2.
  - cbn. rewrite Z.add_0_r. by destruct (_xor_str_from i s2 key offset).
  - cbn [app _xor_str_from length].
    destruct (Z.of_nat (length key) =? 0); [done|].
    destruct (is_code_point _); [|done].
    rewrite IH. replace (i + 1 + Z.of_nat (length rest)) with (i + Z.of_nat (S (length rest))) by lia.
    destruct (_xor_str_from (i + 1) rest key offset) as [t1|e]; [|done].
    by destruct (_xor_str_from _ s2 key offset).
Qed.

Lemma xor_str_from_offset key str :
  forall i offset,
    _xor_str_from i str key offset = _xor_str_from 0 str key (offset + i).
Proof.
  induction str as [|c rest IH]; intros i offset; [done|]. cbn [_xor_str_from].
  destruct (Z.of_nat (length key) =? 0); [done|].
  rewrite (IH (i + 1) offset), (IH (0 + 1) (offset + i)).
  replace (0 + (offset + i)) with (i + offset) by lia.
  by replace (offset + i + (0 + 1)) with (offset + (i + 1)) by lia.
Qed.

(** X14: Transforming a concatenation is transforming the first text, then the
    second with the offset moved on by the length of the first; an exception
    of either part is the exception of the whole, the first part's first. *)
Theorem xor_str_app s1 s2 key offset :
  _xor_str (s1 ++ s2) key offset
  = match _xor_str s1 key offset with
    | Ok t1 =>
      match _xor_str s2 key (offset + Z.of_nat (length s1)) with
      | Ok t2 => Ok (t1 ++ t2)
      | Raise e => Raise e
      end
    | Raise e => Raise e
    end.
Proof.
  unfold _xor_str. rewrite xor_str_from_app.
  destruct (_xor_str_from 0 s1 key offset) as [t1|e]; [|done].
  by rewrite (xor_str_from_offset key s2 (0 + Z.of_nat (length s1)) offset).
Qed.

(** ** The exceptions of a supported template *)







(** ** The index of an item *)

(** X16: The index of an item is used for nothing but the XOR offset: when the
    version of the container is below 3, or no field of the template has an
    XOR key, the fields of an item decode in the same way at every index. *)
Theorem index_only_in_xor version tpl i j item buffer :
  version < 3 \/ forallb unkeyed tpl = true ->
  parse_fields version i tpl item buffer = parse_fields version j tpl item buffer.
Proof.
  intros Hplain. revert item buffer.
  induction tpl as [|[[k t] f] tpl IH]; intros item buffer; [done|].
  cbn [parse_fields]. unfold bind.
  assert (parse_field version i k t f buffer = parse_field version j k t f buffer)
    as ->.
  { unfold parse_field. destruct (version <? _Field.version f); [done|].
    destruct t; try done. unfold bind.
    destruct (_parse_str buffer) as [[s r]|e]; [|done].
    destruct (_Field.xor_key f) as [key|] eqn:Hkey; [|done].
    destruct Hplain as [Hv|Hunkeyed].
    - by destruct (Z.leb_spec 3 version); [lia|].
    - cbn [forallb] in Hunkeyed. apply andb_prop in Hunkeyed as [Hhd _].
      unfold unkeyed in Hhd. cbn [snd] in Hhd. by rewrite Hkey in Hhd. }
  destruct (parse_field version j k t f buffer) as [[v b1]|e]; [|done].
  apply IH. destruct Hplain as [|Hunkeyed]; [by left|].
  cbn [forallb] in Hunkeyed. apply andb_prop in Hunkeyed as [_ Htl]. by right.
Qed.

Lemma index_only_in_xor_witness :
  parse_fields 2 0 Item ∅ [x05; x00] = parse_fields 2 7 Item ∅ [x05; x00].
Proof.
  apply (index_only_in_xor 2 Item 0 7 ∅ [x05; x00]). left. lia.
Defined.
